(** * aiverse_to_yolo: a shallow embedding of [convert.py]

    The converter walks scene directories, reads each scene's annotation
    document, copies every resolved image into a flat output directory and
    writes one YOLO label file per image, then emits the class manifest.

    Modelling choices, all read off [convert.py]:
    - JSON objects are option-typed records of the fields the code consumes,
      [None] for a missing or [null] field; in the pipeline ([main] and the
      loops under it) label fields hold strings, sizes hold numbers and
      [bbox] holds a list of numbers of any length;
    - the instance loop is also given over any JSON value of [bbox]
      ([process_instance_json]): there [len] and [float] can raise, and the
      step of the pipeline is this one at a list of numbers;
    - Python numbers are exact rationals [Q]: [float(x)] of a number is the
      identity and the rounding of binary floating point is not modelled;
    - Python dicts are insertion-ordered association lists ([dict_get],
      [dict_set]); the output directories are finite maps keyed by file name,
      and copying an image or writing a label file into them succeeds;
    - exceptions are an explicit [result] type; the input file system is a
      read-only record of observations: [exists], what [glob] answers for a
      pattern in a directory, and the size of an image. *)

From Stdlib Require Import Ascii String QArith Qminmax Lqa.
From stdpp Require Import base option list strings gmap.

Local Open Scope string_scope.
Local Open Scope list_scope.

(** ** Exceptions *)

Inductive exn :=
| RuntimeError
| FileNotFoundError
| ZeroDivisionError
| KeyError
| IndexError
| TypeError
| ValueError
| OverflowError.

Inductive result (A : Type) :=
| Ok (a : A)
| Raise (e : exn).
Arguments Ok {A} a.
Arguments Raise {A} e.

Definition bind {A B} (m : result A) (k : A -> result B) : result B :=
  match m with
  | Ok a => k a
  | Raise e => Raise e
  end.

Notation "'do' x <- m ; k" := (bind m (fun x => k))
  (at level 10, x pattern, m at level 100, k at level 200).

(** [for x in xs: st = body(x, st)], stopping at the first exception. *)
Fixpoint for_each {A S} (body : A -> S -> result S) (xs : list A) (st : S)
  : result S :=
  match xs with
  | [] => Ok st
  | x :: xs' => do st' <- body x st; for_each body xs' st'
  end.

(** ** Python dictionaries (insertion ordered) *)

Section Dict.
Context {K V : Type} `{EqDecision K}.

Definition dict := list (K * V).

Fixpoint dict_get (k : K) (d : dict) : option V :=
  match d with
  | [] => None
  | (k', v) :: d' => if decide (k' = k) then Some v else dict_get k d'
  end.

Definition dict_mem (k : K) (d : dict) : bool :=
  match dict_get k d with Some _ => true | None => false end.

(** [d[k] = v]: an existing key keeps its position, a new key goes last. *)
Fixpoint dict_set (k : K) (v : V) (d : dict) : dict :=
  match d with
  | [] => [(k, v)]
  | (k', v') :: d' =>
      if decide (k' = k) then (k', v) :: d' else (k', v') :: dict_set k v d'
  end.

Definition dict_keys (d : dict) : list K := map fst d.
End Dict.
Arguments dict K V : clear implicits.

(** ** Strings and paths *)

Definition slash : ascii := "/"%char.
Definition dot : ascii := "."%char.

(** [s.split("/")]: the segments between slashes, at least one. *)
Fixpoint split_slash (s : string) : list string :=
  match s with
  | EmptyString => [EmptyString]
  | String c s' =>
      if decide (c = slash) then EmptyString :: split_slash s'
      else match split_slash s' with
           | seg :: segs => String c seg :: segs
           | [] => [String c EmptyString]
           end
  end.

(** [s.split("/")[-1]] *)
Definition last_segment (s : string) : string :=
  List.last (split_slash s) EmptyString.

(** [Path(s).name]: the final component, empty and ["."] components dropped. *)
Definition path_parts (s : string) : list string :=
  filter (fun c => c <> "" /\ c <> ".") (split_slash s).

Definition path_name (s : string) : string :=
  List.last (path_parts s) EmptyString.

(** [name.rfind(".")] *)
Fixpoint rfind_dot (s : string) : option nat :=
  match s with
  | EmptyString => None
  | String c s' =>
      match rfind_dot s' with
      | Some i => Some (S i)
      | None => if decide (c = dot) then Some 0 else None
      end
  end.

(** [Path(s).stem]: the name without its last suffix. *)
Definition path_stem (s : string) : string :=
  let name := path_name s in
  match rfind_dot name with
  | Some i =>
      if (0 <? i)%nat && (i <? String.length name - 1)%nat
      then substring 0 i name else name
  | None => name
  end.

(** [dir / rel]: an absolute right operand replaces the left one. *)
Definition path_join (dir rel : string) : string :=
  if String.prefix "/" rel then rel else dir +:+ "/" +:+ rel.

Definition starts_with (p s : string) : bool := String.prefix p s.

Definition ends_with (suffix s : string) : bool :=
  let n := String.length s in
  let k := String.length suffix in
  (k <=? n)%nat && bool_decide (substring (n - k) k s = suffix).

(** ** Numbers *)

(** Python's [min(a, b)] and [max(a, b)] keep the first argument on a tie. *)
Definition py_min (a b : Q) : Q := if Qlt_le_dec b a then b else a.
Definition py_max (a b : Q) : Q := if Qlt_le_dec a b then b else a.

Definition is_zero (q : Q) : bool := Qeq_bool q 0.

(** [a / b] on floats raises on a zero divisor. *)
Definition py_div (a b : Q) : result Q :=
  if is_zero b then Raise ZeroDivisionError else Ok (a / b)%Q.

(** ** BBox normalizer: [yolo_bbox] *)

Definition clamp (x hi : Q) : Q := py_max 0 (py_min x hi).

Definition extent (lo hi : Q) : Q := py_max 0 (hi - lo)%Q.

Definition yolo_bbox (xmin ymin xmax ymax w h : Q) : result (Q * Q * Q * Q) :=
  let xmin := clamp xmin (w - 1) in
  let xmax := clamp xmax (w - 1) in
  let ymin := clamp ymin (h - 1) in
  let ymax := clamp ymax (h - 1) in
  let bw := extent xmin xmax in
  let bh := extent ymin ymax in
  let cx := (xmin + bw / 2)%Q in
  let cy := (ymin + bh / 2)%Q in
  do x <- py_div cx w;
  do y <- py_div cy h;
  do nw <- py_div bw w;
  do nh <- py_div bh h;
  Ok (x, y, nw, nh).

(** The test [bw <= 0 or bh <= 0] the caller applies to the returned pair. *)
Definition degenerate (bw bh : Q) : bool := Qle_bool bw 0 || Qle_bool bh 0.

(** ** Data model *)

(** One entry of [images]: [id], the file-name key, [width], [height]. *)
Record image_entry := {
  im_id : option Z;
  im_file_name : option string;
  im_width : option Q;
  im_height : option Q
}.

(** One entry of [instances]. *)
Record instance := {
  image_id : option Z;
  class_ : option string;
  subclass : option string;
  superclass : option string;
  path : option string;
  bbox : option (list Q)
}.

Record document := {
  images : list image_entry;
  instances : list instance
}.

(** [--label-field] *)
Inductive label_mode :=
| ModeClass
| ModeSubclass
| ModeSuperclass
| ModePath
| ModeClassSubclass.

(** Python truthiness of a [str | None] value. *)
Definition truthy (o : option string) : bool :=
  match o with
  | Some s => negb (bool_decide (s = ""))
  | None => false
  end.

(** ** Label extractor: [label_from_instance] *)

Definition label_from_instance (inst : instance) (mode : label_mode)
  : option string :=
  match mode with
  | ModeClass => class_ inst
  | ModeSubclass => subclass inst
  | ModeSuperclass => superclass inst
  | ModePath =>
      match path inst with
      | Some p => Some (last_segment p)
      | None => None
      end
  | ModeClassSubclass =>
      let c := class_ inst in
      let s := subclass inst in
      match c, s with
      | Some cs, Some ss =>
          if truthy c && truthy s then Some (cs +:+ "/" +:+ ss)
          else if truthy c then c else s
      | _, _ => if truthy c then c else s
      end
  end.

(** ** Input file system *)

Record filesystem := {
  fs_exists : string -> bool;                  (* [Path.exists()] *)
  fs_glob : string -> string -> list string;   (* [list(dir.glob(pattern))] *)
  fs_image_size : string -> option (Z * Z)     (* PIL [Image.open(p).size] *)
}.

(** [list(scene_dir.glob("*" + ext))] *)
Definition glob_ext (fs : filesystem) (scene_dir ext : string) : list string :=
  fs_glob fs scene_dir ("*" +:+ ext).

(** The loop over [exts] of [resolve_image_path]. *)
Fixpoint search_exts (fs : filesystem) (scene_dir : string) (exts : list string)
  : option string :=
  match exts with
  | [] => None
  | ext :: exts' =>
      let cand := glob_ext fs scene_dir ext in
      let beauty :=
        List.filter (fun c => starts_with "beauty." (path_name c)) cand in
      match beauty with
      | b :: _ => Some b
      | [] =>
          match cand with
          | c :: _ => Some c
          | [] => search_exts fs scene_dir exts'
          end
      end
  end.

(** ** Image resolver: [resolve_image_path] *)

Definition resolve_image_path (fs : filesystem) (scene_dir : string)
    (fname : option string) (exts : list string) : option string :=
  match fname with
  | Some f =>
      if truthy fname then
        let p := path_join scene_dir f in
        if fs_exists fs p then Some p
        else
          let p := path_join scene_dir (path_name f) in
          if fs_exists fs p then Some p
          else search_exts fs scene_dir exts
      else search_exts fs scene_dir exts
  | None => search_exts fs scene_dir exts
  end.

(** ** Run state *)

(** The [[WARN]] lines printed in tolerant mode. *)
Inductive warning :=
| WarnRead (scene_dir : string)
| WarnMissingImage (iid : option Z) (fname : option string) (scene_dir : string)
| WarnMissingSize (src_img : string).

(** [(cid, x, y, bw, bh)]; the six-decimal formatting is left out. *)
Definition label_line : Type := nat * Q * Q * Q * Q.

(** The variables of [main] that outlive one loop iteration, and the output
    tree: [out/images] maps a file name to the source path it was copied
    from, [out/labels] maps a file name to the lines written. *)
Record state := {
  classes : dict string nat;
  next_cid : nat;
  st_images : nat;
  st_instances : nat;
  st_skipped_instances : nat;
  st_scenes : nat;
  out_images : gmap string string;
  out_labels : gmap string (list label_line);
  stdout : list warning
}.

Definition set_registry (c : dict string nat) (n : nat) (st : state) : state :=
  {| classes := c; next_cid := n;
     st_images := st_images st; st_instances := st_instances st;
     st_skipped_instances := st_skipped_instances st; st_scenes := st_scenes st;
     out_images := out_images st; out_labels := out_labels st;
     stdout := stdout st |}.

(** [stats["skipped_instances"] += 1] *)
Definition count_skipped (st : state) : state :=
  {| classes := classes st; next_cid := next_cid st;
     st_images := st_images st; st_instances := st_instances st;
     st_skipped_instances := S (st_skipped_instances st);
     st_scenes := st_scenes st;
     out_images := out_images st; out_labels := out_labels st;
     stdout := stdout st |}.

(** [stats["scenes"] += 1] *)
Definition count_scene (st : state) : state :=
  {| classes := classes st; next_cid := next_cid st;
     st_images := st_images st; st_instances := st_instances st;
     st_skipped_instances := st_skipped_instances st;
     st_scenes := S (st_scenes st);
     out_images := out_images st; out_labels := out_labels st;
     stdout := stdout st |}.

(** [print(msg)] *)
Definition warn (w : warning) (st : state) : state :=
  {| classes := classes st; next_cid := next_cid st;
     st_images := st_images st; st_instances := st_instances st;
     st_skipped_instances := st_skipped_instances st; st_scenes := st_scenes st;
     out_images := out_images st; out_labels := out_labels st;
     stdout := stdout st ++ [w] |}.

(** [if not out_img.exists(): shutil.copy2(src_img, out_img)] *)
Definition copy_image (src_img out_img : string) (st : state) : state :=
  match out_images st !! out_img with
  | Some _ => st
  | None =>
      {| classes := classes st; next_cid := next_cid st;
         st_images := st_images st; st_instances := st_instances st;
         st_skipped_instances := st_skipped_instances st;
         st_scenes := st_scenes st;
         out_images := <[out_img := src_img]> (out_images st);
         out_labels := out_labels st;
         stdout := stdout st |}
  end.

(** [out_lbl.write_text(...)], then the two counters. *)
Definition write_label (out_lbl : string) (ls : list label_line) (st : state)
  : state :=
  {| classes := classes st; next_cid := next_cid st;
     st_images := S (st_images st);
     st_instances := st_instances st + length ls;
     st_skipped_instances := st_skipped_instances st;
     st_scenes := st_scenes st;
     out_images := out_images st;
     out_labels := <[out_lbl := ls]> (out_labels st);
     stdout := stdout st |}.

(** ** Class registry *)

(** [if lab not in classes: classes[lab] = next_cid; next_cid += 1] *)
Definition register (lab : string) (st : state) : state :=
  if dict_mem lab (classes st) then st
  else set_registry (dict_set lab (next_cid st) (classes st))
                    (S (next_cid st)) st.

(** ** Scene processor *)

Record args := {
  label_field : label_mode;
  image_extensions : list string;
  strict : bool
}.

(** The per-image locals of the instance loop: [lines], and [w], [h], which
    the size fallback assigns once for the rest of the image. *)
Record locals := {
  lines : list label_line;
  cur_w : option Q;
  cur_h : option Q
}.

Definition emit (l : label_line) (lc : locals) : locals :=
  {| lines := lines lc ++ [l]; cur_w := cur_w lc; cur_h := cur_h lc |}.

Definition set_size (w h : Q) (lc : locals) : locals :=
  {| lines := lines lc; cur_w := Some w; cur_h := Some h |}.

(** [yolo_bbox], the degeneracy test and [lines.append]. *)
Definition normalize_and_emit (cid : nat) (xmin ymin xmax ymax w h : Q)
    (st : state) (lc : locals) : result (state * locals) :=
  do r <- yolo_bbox xmin ymin xmax ymax w h;
  let '(x, y, bw, bh) := r in
  if degenerate bw bh then Ok (count_skipped st, lc)
  else Ok (st, emit (cid, x, y, bw, bh) lc).

(** [if w is None or h is None]: the size of the image file is read, and
    kept in [w], [h]; [None] when reading raises. *)
Definition resolve_size (fs : filesystem) (src_img : string) (lc : locals)
  : option (Q * Q * locals) :=
  match cur_w lc, cur_h lc with
  | Some w, Some h => Some (w, h, lc)
  | _, _ =>
      match fs_image_size fs src_img with
      | Some (iw, ih) =>
          let w := inject_Z iw in
          let h := inject_Z ih in
          Some (w, h, set_size w h lc)
      | None => None
      end
  end.

(** The body of [for inst in per_image[iid]]. *)
Definition process_instance (a : args) (fs : filesystem) (src_img : string)
    (inst : instance) (sl : state * locals) : result (state * locals) :=
  let '(st, lc) := sl in
  match label_from_instance inst (label_field a) with
  | None => Ok (count_skipped st, lc)
  | Some lab =>
      let st := register lab st in
      match dict_get lab (classes st) with
      | None => Raise KeyError
      | Some cid =>
          match bbox inst with
          | Some [xmin; ymin; xmax; ymax] =>
              match resolve_size fs src_img lc with
              | Some (w, h, lc) =>
                  normalize_and_emit cid xmin ymin xmax ymax w h st lc
              | None =>
                  if strict a then Raise RuntimeError
                  else Ok (warn (WarnMissingSize src_img) st, lc)
              end
          | _ => Ok (count_skipped st, lc)
          end
      end
  end.

(** *** The [bbox] field as JSON gives it

    [inst.get("bbox")] is any JSON value.  The loop asks three things of it:
    its truth value ([not bbox]), its length ([len(bbox)]) and, when the
    length is 4, the four items that unpacking yields, each handed to
    [float].  A value without a length ([null], a boolean, a number) is a
    [BoxScalar] with its truth value; a list, a string or an object is a
    [BoxSeq] of its items, each item standing for what [float] makes of it:
    a number, or the exception [float] raises ([TypeError] for [null], a list
    or an object, [ValueError] for a string that is no number,
    [OverflowError] for an integer too large). *)
Inductive bbox_json :=
| BoxScalar (truth : bool)
| BoxSeq (items : list (result Q)).

(** The typed [bbox] of [instance] as such a value. *)
Definition numbers (b : option (list Q)) : bbox_json :=
  match b with
  | None => BoxScalar false
  | Some l => BoxSeq (map Ok l)
  end.

(** [float(xmin), float(ymin), float(xmax), float(ymax)], evaluated left to
    right. *)
Definition floats (x0 x1 x2 x3 : result Q) : result (Q * Q * Q * Q) :=
  do xmin <- x0;
  do ymin <- x1;
  do xmax <- x2;
  do ymax <- x3;
  Ok (xmin, ymin, xmax, ymax).

(** The body of [for inst in per_image[iid]] for an instance whose [bbox]
    field holds [raw]; the other fields are those of [inst]. *)
Definition process_instance_json (a : args) (fs : filesystem)
    (src_img : string) (inst : instance) (raw : bbox_json)
    (sl : state * locals) : result (state * locals) :=
  let '(st, lc) := sl in
  match label_from_instance inst (label_field a) with
  | None => Ok (count_skipped st, lc)
  | Some lab =>
      let st := register lab st in
      match dict_get lab (classes st) with
      | None => Raise KeyError
      | Some cid =>
          match raw with
          | BoxScalar false => Ok (count_skipped st, lc)
          | BoxScalar true => Raise TypeError
          | BoxSeq [x0; x1; x2; x3] =>
              match resolve_size fs src_img lc with
              | Some (w, h, lc) =>
                  do r <- floats x0 x1 x2 x3;
                  let '(xmin, ymin, xmax, ymax) := r in
                  normalize_and_emit cid xmin ymin xmax ymax w h st lc
              | None =>
                  if strict a then Raise RuntimeError
                  else Ok (warn (WarnMissingSize src_img) st, lc)
              end
          | BoxSeq _ => Ok (count_skipped st, lc)
          end
      end
  end.

(** The value stored in [img_map]. *)
Record meta := {
  file_name : option string;
  width : option Q;
  height : option Q
}.

Definition build_img_map (ims : list image_entry) : dict (option Z) meta :=
  fold_left
    (fun d im =>
       dict_set (im_id im)
                {| file_name := im_file_name im; width := im_width im;
                   height := im_height im |} d)
    ims [].

(** [{iid: [] for iid in img_map.keys()}] *)
Definition empty_per_image (img_map : dict (option Z) meta)
  : dict (option Z) (list instance) :=
  map (fun iid => (iid, [])) (dict_keys img_map).

(** The body of [for inst in instances]. *)
Definition attach_instance (inst : instance)
    (ps : dict (option Z) (list instance) * state)
  : dict (option Z) (list instance) * state :=
  let '(per_image, st) := ps in
  let iid := image_id inst in
  match dict_get iid per_image with
  | None => (per_image, count_skipped st)
  | Some l => (dict_set iid (l ++ [inst]) per_image, st)
  end.

Definition build_per_image (img_map : dict (option Z) meta)
    (insts : list instance) (st : state)
  : dict (option Z) (list instance) * state :=
  fold_left (fun ps inst => attach_instance inst ps) insts
            (empty_per_image img_map, st).

(** The body of [for iid, meta in img_map.items()]. *)
Definition process_image (a : args) (fs : filesystem) (scene_dir : string)
    (per_image : dict (option Z) (list instance))
    (item : option Z * meta) (st : state) : result state :=
  let '(iid, m) := item in
  let fname := file_name m in
  let missing :=
    if strict a then Raise FileNotFoundError
    else Ok (warn (WarnMissingImage iid fname scene_dir) st) in
  match resolve_image_path fs scene_dir fname (image_extensions a) with
  | None => missing
  | Some src_img =>
      if negb (fs_exists fs src_img) then missing
      else
        let new_name := path_name scene_dir +:+ "_" +:+ path_name src_img in
        let out_img := new_name in
        let out_lbl := path_stem new_name +:+ ".txt" in
        let st := copy_image src_img out_img st in
        match dict_get iid per_image with
        | None => Raise KeyError
        | Some insts =>
            do r <- for_each (process_instance a fs src_img) insts
                     (st, {| lines := []; cur_w := width m; cur_h := height m |});
            let '(st, lc) := r in
            Ok (write_label out_lbl (lines lc) st)
        end
  end.

(** A discovered [scene_instances.json]: its directory and the parsed
    document, [None] when reading or parsing raises. *)
Record scene := {
  scene_dir : string;
  scene_doc : option document
}.

(** The body of [for json_path in find_scene_dirs(in_root)]. *)
Definition process_scene (a : args) (fs : filesystem) (sc : scene) (st : state)
  : result state :=
  let st := count_scene st in
  match scene_doc sc with
  | None =>
      if strict a then Raise RuntimeError
      else Ok (warn (WarnRead (scene_dir sc)) st)
  | Some data =>
      let img_map := build_img_map (images data) in
      let '(per_image, st) := build_per_image img_map (instances data) st in
      for_each (process_image a fs (scene_dir sc) per_image) img_map st
  end.

(** ** Dataset writer *)

(** [inv = [None] * len(classes); for k, v in classes.items(): inv[v] = k] *)
Definition invert_classes (c : dict string nat) : result (list (option string)) :=
  for_each
    (fun kv inv =>
       let '(k, v) := kv in
       if (v <? length inv)%nat then Ok (<[v := Some k]> inv)
       else Raise IndexError)
    c (replicate (length c) None).

(** The [names:] section of [write_data_yaml]: one [i: label] line per index. *)
Definition write_data_yaml (class_list : list (option string))
  : list (nat * option string) :=
  imap (fun i l => (i, l)) class_list.

Definition initial_state (imgs : gmap string string)
    (lbls : gmap string (list label_line)) : state :=
  {| classes := []; next_cid := 0;
     st_images := 0; st_instances := 0; st_skipped_instances := 0;
     st_scenes := 0;
     out_images := imgs; out_labels := lbls; stdout := [] |}.

Definition run (a : args) (fs : filesystem) (scenes : list scene) (st : state)
  : result state :=
  for_each (process_scene a fs) scenes st.

(** [main]: the scenes in discovery order over the output tree found on
    entry, then the manifest. *)
Definition main (a : args) (fs : filesystem) (scenes : list scene)
    (imgs : gmap string string) (lbls : gmap string (list label_line))
  : result (state * list (nat * option string)) :=
  do st <- run a fs scenes (initial_state imgs lbls);
  do inv <- invert_classes (classes st);
  Ok (st, write_data_yaml inv).

(** ** Notions used by the statements *)

(** A proper box lying fully inside [[0, w) x [0, h)]. *)
Definition inside_image (xmin ymin xmax ymax w h : Q) : Prop :=
  (0 <= xmin /\ xmin < xmax /\ xmax < w /\
   0 <= ymin /\ ymin < ymax /\ ymax < h)%Q.

(** A box that misses [[0, w) x [0, h)] on some axis. *)
Definition outside_image (xmin ymin xmax ymax w h : Q) : Prop :=
  (xmax <= 0 \/ w <= xmin \/ ymax <= 0 \/ h <= ymin)%Q.

(** The registry invariant: distinct labels, ids [0, 1, ...] in insertion
    order, and the counter equal to the number of entries. *)
Definition registry_ok (st : state) : Prop :=
  NoDup (map fst (classes st)) /\
  map snd (classes st) = seq 0 (length (classes st)) /\
  next_cid st = length (classes st).

(** [not bbox or len(bbox) != 4] *)
Definition bbox_rejected (b : option (list Q)) : Prop :=
  match b with
  | None => True
  | Some l => length l <> 4
  end.

(** *** The resolution order as the specification words it *)

(** "If a filename is declared": present and not the empty string. *)
Definition declared (fname : option string) : option string :=
  match fname with
  | Some f => if bool_decide (f = "") then None else Some f
  | None => None
  end.

(** "try it ...; if found, return it" *)
Definition try_path (fs : filesystem) (p : string) : option string :=
  if fs_exists fs p then Some p else None.

(** For one extension: the first match whose name begins with [beauty.],
    else the first match. *)
Definition pick_for_ext (fs : filesystem) (dir ext : string) : option string :=
  let matches := glob_ext fs dir ext in
  match find (fun c => starts_with "beauty." (path_name c)) matches with
  | Some c => Some c
  | None => head matches
  end.

(** First match wins. *)
Fixpoint first_some {A} (steps : list (option A)) : option A :=
  match steps with
  | [] => None
  | Some x :: _ => Some x
  | None :: rest => first_some rest
  end.

Definition resolve_spec (fs : filesystem) (dir : string)
    (fname : option string) (exts : list string) : option string :=
  first_some
    [ match declared fname with
      | Some f => try_path fs (path_join dir f)
      | None => None
      end;
      match declared fname with
      | Some f => try_path fs (path_join dir (path_name f))
      | None => None
      end;
      first_some (map (pick_for_ext fs dir) exts) ].

(** *** Empty strings read as absent fields *)

Definition blank_to_absent (o : option string) : option string :=
  match o with
  | Some s => if bool_decide (s = "") then None else Some s
  | None => None
  end.

Definition blank_fields (inst : instance) : instance :=
  {| image_id := image_id inst;
     class_ := blank_to_absent (class_ inst);
     subclass := blank_to_absent (subclass inst);
     superclass := superclass inst;
     path := path inst;
     bbox := bbox inst |}.

(** *** What one pass of the instance loop can do

    The cases follow the order of the tests in the loop body: label, class
    id, bounding box, size, normalization. *)
Inductive instance_outcome (a : args) (fs : filesystem) (src : string)
    (inst : instance) (st : state) (lc : locals)
  : result (state * locals) -> Prop :=
| OutNoLabel :
    label_from_instance inst (label_field a) = None ->
    instance_outcome a fs src inst st lc (Ok (count_skipped st, lc))
| OutBadBBox lab :
    label_from_instance inst (label_field a) = Some lab ->
    bbox_rejected (bbox inst) ->
    instance_outcome a fs src inst st lc
      (Ok (count_skipped (register lab st), lc))
| OutNoSize lab xmin ymin xmax ymax :
    label_from_instance inst (label_field a) = Some lab ->
    bbox inst = Some [xmin; ymin; xmax; ymax] ->
    resolve_size fs src lc = None ->
    instance_outcome a fs src inst st lc
      (if strict a then Raise RuntimeError
       else Ok (warn (WarnMissingSize src) (register lab st), lc))
| OutRaise lab xmin ymin xmax ymax w h lc' e :
    label_from_instance inst (label_field a) = Some lab ->
    bbox inst = Some [xmin; ymin; xmax; ymax] ->
    resolve_size fs src lc = Some (w, h, lc') ->
    yolo_bbox xmin ymin xmax ymax w h = Raise e ->
    instance_outcome a fs src inst st lc (Raise e)
| OutDegenerate lab xmin ymin xmax ymax w h lc' x y bw bh :
    label_from_instance inst (label_field a) = Some lab ->
    bbox inst = Some [xmin; ymin; xmax; ymax] ->
    resolve_size fs src lc = Some (w, h, lc') ->
    yolo_bbox xmin ymin xmax ymax w h = Ok (x, y, bw, bh) ->
    degenerate bw bh = true ->
    instance_outcome a fs src inst st lc
      (Ok (count_skipped (register lab st), lc'))
| OutLine lab cid xmin ymin xmax ymax w h lc' x y bw bh :
    label_from_instance inst (label_field a) = Some lab ->
    dict_get lab (classes (register lab st)) = Some cid ->
    bbox inst = Some [xmin; ymin; xmax; ymax] ->
    resolve_size fs src lc = Some (w, h, lc') ->
    yolo_bbox xmin ymin xmax ymax w h = Ok (x, y, bw, bh) ->
    degenerate bw bh = false ->
    instance_outcome a fs src inst st lc
      (Ok (register lab st, emit (cid, x, y, bw, bh) lc')).

(** ** Concrete scenes for the examples *)

Definition default_args : args :=
  {| label_field := ModeClass;
     image_extensions := [".png"; ".jpg"; ".jpeg"];
     strict := false |}.

Definition strict_args : args :=
  {| label_field := ModeClass;
     image_extensions := [".png"; ".jpg"; ".jpeg"];
     strict := true |}.

(** What [glob] answers in a directory with the given entries for a
    pattern [*ext] whose [ext] has no wildcard character: the entries that
    end with [ext], in listing order.  Other patterns are not used by the
    examples and get no match. *)
Definition literal_glob (entries : list string) (dir pattern : string)
  : list string :=
  match pattern with
  | String c ext =>
      if bool_decide (c = "*"%char)
      then map (fun n => dir +:+ "/" +:+ n)
               (List.filter (fun n => ends_with ext n) entries)
      else []
  | EmptyString => []
  end.

(** A file system where exactly the listed paths exist, [glob] answers as
    given, and no image can be opened for its size. *)
Definition fs_of (files : list string)
    (globbed : string -> string -> list string) : filesystem :=
  {| fs_exists := fun p => bool_decide (p ∈ files);
     fs_glob := globbed;
     fs_image_size := fun _ => None |}.

Definition plain_instance (iid : Z) (cls : option string)
    (box : option (list Q)) : instance :=
  {| image_id := Some iid; class_ := cls; subclass := None;
     superclass := None; path := None; bbox := box |}.

Definition plain_image (iid : Z) (fname : string) (w h : Q) : image_entry :=
  {| im_id := Some iid; im_file_name := Some fname;
     im_width := Some w; im_height := Some h |}.

Definition no_locals (w h : option Q) : locals :=
  {| lines := []; cur_w := w; cur_h := h |}.

(** One image of 100 x 50 with one instance of class [car] that has no
    bounding box. *)
Definition scene_a_fs : filesystem :=
  fs_of ["in/sceneA/beauty.0001.png"]
        (literal_glob ["scene_instances.json"; "beauty.0001.png"]).

Definition car_without_box : instance := plain_instance 1 (Some "car") None.

Definition scene_a_no_box : scene :=
  {| scene_dir := "in/sceneA";
     scene_doc :=
       Some {| images := [plain_image 1 "beauty.0001.png" 100 50];
               instances := [car_without_box] |} |}.

(** An instance whose [class] is the empty string, with a proper box. *)
Definition blank_class_instance : instance :=
  plain_instance 1 (Some "") (Some [10; 10; 60; 40]%Q).

(** An instance with no [class] and an empty [subclass]. *)
Definition blank_subclass_instance : instance :=
  {| image_id := Some 1%Z; class_ := None; subclass := Some "";
     superclass := None; path := None; bbox := None |}.

(** *** The registry over a run *)

(** [st'] has the registry of [st], possibly with entries appended. *)
Definition registry_extends (st st' : state) : Prop :=
  (registry_ok st -> registry_ok st') /\
  exists new, classes st' = classes st ++ new.

(** The labels of a sequence in order of first occurrence. *)
Fixpoint first_seen_from (seen labs : list string) : list string :=
  match labs with
  | [] => seen
  | l :: labs' =>
      if bool_decide (l ∈ seen) then first_seen_from seen labs'
      else first_seen_from (seen ++ [l]) labs'
  end.

Definition first_seen (labs : list string) : list string :=
  first_seen_from [] labs.

(** Labels numbered from 0 in list order. *)
Definition enumerate (labs : list string) : dict string nat :=
  zip labs (seq 0 (length labs)).

(** A sequence of registry lookups. *)
Definition lookups (labs : list string) (st : state) : state :=
  fold_left (fun st lab => register lab st) labs st.

(** The labels that reach the registry, in the order of the traversal:
    per scene, per resolved image, per attached instance with a label. *)
Definition instance_labels (a : args) (insts : list instance) : list string :=
  omap (fun inst => label_from_instance inst (label_field a)) insts.

Definition image_labels (a : args) (fs : filesystem) (dir : string)
    (per_image : dict (option Z) (list instance)) (item : option Z * meta)
  : list string :=
  match resolve_image_path fs dir (file_name (snd item)) (image_extensions a) with
  | Some src =>
      if fs_exists fs src then
        match dict_get (fst item) per_image with
        | Some insts => instance_labels a insts
        | None => []
        end
      else []
  | None => []
  end.

Definition scene_labels (a : args) (fs : filesystem) (sc : scene) : list string :=
  match scene_doc sc with
  | Some data =>
      let img_map := build_img_map (images data) in
      let per_image :=
        fst (build_per_image img_map (instances data) (initial_state ∅ ∅)) in
      flat_map (image_labels a fs (scene_dir sc) per_image) img_map
  | None => []
  end.

Definition run_labels (a : args) (fs : filesystem) (scenes : list scene)
  : list string :=
  flat_map (scene_labels a fs) scenes.

Definition same_registry (st st' : state) : Prop :=
  classes st = classes st' /\ next_cid st = next_cid st'.

(** *** Orphaned instances *)

(** The instance's [image_id] matches no entry of [images]. *)
Definition is_orphan (ims : list image_entry) (inst : instance) : bool :=
  negb (bool_decide (image_id inst ∈ map im_id ims)).

Definition orphans (data : document) : list instance :=
  List.filter (is_orphan (images data)) (instances data).

(** The scene with the orphaned instances removed from its document. *)
Definition without_orphans (sc : scene) : scene :=
  {| scene_dir := scene_dir sc;
     scene_doc :=
       match scene_doc sc with
       | Some data =>
           Some {| images := images data;
                   instances :=
                     List.filter (fun inst => negb (is_orphan (images data) inst))
                                 (instances data) |}
       | None => None
       end |}.

(** [stats["skipped_instances"] += k] *)
Definition add_skipped (k : nat) (st : state) : state :=
  {| classes := classes st; next_cid := next_cid st;
     st_images := st_images st; st_instances := st_instances st;
     st_skipped_instances := st_skipped_instances st + k;
     st_scenes := st_scenes st;
     out_images := out_images st; out_labels := out_labels st;
     stdout := stdout st |}.

Definition result_map {A B} (f : A -> B) (r : result A) : result B :=
  match r with
  | Ok a => Ok (f a)
  | Raise e => Raise e
  end.

(** The scene of the end-to-end example, with a second instance that
    refers to an image id 7 the document does not have. *)
Definition car_with_box : instance :=
  plain_instance 1 (Some "car") (Some [10; 10; 60; 40]%Q).

Definition stray_dog : instance :=
  plain_instance 7 (Some "dog") (Some [0; 0; 20; 20]%Q).

Definition doc_a_with_orphan : document :=
  {| images := [plain_image 1 "beauty.0001.png" 100 50];
     instances := [car_with_box; stray_dog] |}.

Definition scene_a_with_orphan : scene :=
  {| scene_dir := "in/sceneA"; scene_doc := Some doc_a_with_orphan |}.

(** Two scene directories with the same name under different parents, each
    holding a [beauty.png] of 100 x 50 with one boxed instance. *)
Definition twin_fs : filesystem :=
  fs_of ["in/a/scene1/beauty.png"; "in/b/scene1/beauty.png"]
        (literal_glob ["scene_instances.json"; "beauty.png"]).

Definition twin_scene (dir cls : string) (box : list Q) : scene :=
  {| scene_dir := dir;
     scene_doc :=
       Some {| images := [plain_image 1 "beauty.png" 100 50];
               instances := [plain_instance 1 (Some cls) (Some box)] |} |}.

Definition twin_first : scene := twin_scene "in/a/scene1" "car" [10; 10; 60; 40]%Q.
Definition twin_second : scene := twin_scene "in/b/scene1" "dog" [0; 0; 50; 25]%Q.

(** [--strict] set or cleared, the other options kept. *)
Definition with_strict (b : bool) (a : args) : args :=
  {| label_field := label_field a;
     image_extensions := image_extensions a;
     strict := b |}.

(** The per-instance data defects the loop skips on the spot. *)
Definition instance_rejected (a : args) (inst : instance) : Prop :=
  label_from_instance inst (label_field a) = None \/ bbox_rejected (bbox inst).

(** The number of warnings printed so far. *)
Definition printed (st : state) : nat := length (stdout st).

(** A scene whose annotation document cannot be read. *)
Definition broken_scene : scene :=
  {| scene_dir := "in/broken"; scene_doc := None |}.

(** No division by zero can occur for this image: the declared size, or
    else the size read from the file, has no zero component. *)
Definition dims_ok (fs : filesystem) (src : string) (w h : option Q) : Prop :=
  match w, h with
  | Some w, Some h => ~ (w == 0)%Q /\ ~ (h == 0)%Q
  | _, _ =>
      match fs_image_size fs src with
      | Some (iw, ih) => iw <> 0%Z /\ ih <> 0%Z
      | None => True
      end
  end.

(** ** Notions used by the further properties *)

(** The string contains a [/]. *)
Fixpoint has_slash (s : string) : bool :=
  match s with
  | EmptyString => false
  | String c s' => bool_decide (c = slash) || has_slash s'
  end.

(** The value [main] stores in [img_map] for one entry of [images]. *)
Definition meta_of (im : image_entry) : meta :=
  {| file_name := im_file_name im; width := im_width im;
     height := im_height im |}.

(** The last entry of [images] that carries the id [k]. *)
Definition last_entry (k : option Z) (ims : list image_entry)
  : option image_entry :=
  find (fun im => bool_decide (im_id im = k)) (rev ims).

(** Nothing already in the output tree is lost between [s] and [s']: an
    image keeps its content, a label file stays in place. *)
Definition out_persists (s s' : state) : Prop :=
  (forall k v, out_images s !! k = Some v -> out_images s' !! k = Some v) /\
  (forall k, is_Some (out_labels s !! k) -> is_Some (out_labels s' !! k)).

(** The instances accounted for so far: written as label lines or counted
    as skipped. *)
Definition accounted (st : state) : nat :=
  st_instances st + st_skipped_instances st.

(** The class id of a label line. *)
Definition line_class (l : label_line) : nat := fst (fst (fst (fst l))).

(** Every line of every label file names a class id below the counter. *)
Definition labels_valid (st : state) : Prop :=
  forall f ls, out_labels st !! f = Some ls ->
               Forall (fun l => line_class l < next_cid st) ls.

(** *** The effect of a run on the output tree *)

(** The state with another output tree. *)
Definition with_out (imgs : gmap string string)
    (lbls : gmap string (list label_line)) (st : state) : state :=
  {| classes := classes st; next_cid := next_cid st;
     st_images := st_images st; st_instances := st_instances st;
     st_skipped_instances := st_skipped_instances st;
     st_scenes := st_scenes st;
     out_images := imgs; out_labels := lbls; stdout := stdout st |}.

(** A sequence of guarded copies [(out_img, src_img)], in order. *)
Definition apply_copies (cs : list (string * string))
    (imgs : gmap string string) : gmap string string :=
  fold_left
    (fun m c => match m !! fst c with
                | Some _ => m
                | None => <[fst c := snd c]> m
                end)
    cs imgs.

(** A sequence of label-file writes [(out_lbl, lines)], in order. *)
Definition apply_writes (ws : list (string * list label_line))
    (lbls : gmap string (list label_line)) : gmap string (list label_line) :=
  fold_left (fun m w => <[fst w := snd w]> m) ws lbls.

(** [step] does not read the output tree, and what it does to it is a
    fixed sequence of guarded copies and of writes. *)
Definition tree_oblivious (step : state -> result state) : Prop :=
  forall st,
    match step st with
    | Raise e => forall imgs lbls, step (with_out imgs lbls st) = Raise e
    | Ok st' =>
        exists cs ws, forall imgs lbls,
          step (with_out imgs lbls st)
          = Ok (with_out (apply_copies cs imgs) (apply_writes ws lbls) st')
    end.

(** A file name proper: not empty, not [.], and without [/]. *)
Definition proper_name (n : string) : Prop :=
  has_slash n = false /\ n <> "" /\ n <> ".".

(** *** Defects of the [bbox] field *)

(** [not bbox or len(bbox) != 4] holds without an exception: the value is
    falsy, or it has a length other than 4. *)
Definition json_rejected (raw : bbox_json) : Prop :=
  match raw with
  | BoxScalar t => t = false
  | BoxSeq l => length l <> 4
  end.

(** Four numbers whose box is degenerate for the size the loop resolves. *)
Definition json_degenerate (a : args) (fs : filesystem) (src : string)
    (inst : instance) (raw : bbox_json) (lc : locals) : Prop :=
  exists lab xmin ymin xmax ymax w h lc1 x y bw bh,
    label_from_instance inst (label_field a) = Some lab /\
    raw = BoxSeq [Ok xmin; Ok ymin; Ok xmax; Ok ymax] /\
    resolve_size fs src lc = Some (w, h, lc1) /\
    yolo_bbox xmin ymin xmax ymax w h = Ok (x, y, bw, bh) /\
    degenerate bw bh = true.

(** ["bbox": [10, 10, 60, null]]: [float(None)] raises [TypeError]. *)
Definition box_with_null : bbox_json :=
  BoxSeq [Ok 10%Q; Ok 10%Q; Ok 60%Q; Raise TypeError].

(** ["bbox": 5]: truthy, and without a length. *)
Definition box_number : bbox_json := BoxScalar true.

(** * Properties *)

(** ** Arithmetic of one axis of [yolo_bbox] *)

Local Open Scope Q_scope.

(** [lra] does not read a division: halving becomes a product. *)
Ltac halves :=
  repeat match goal with
         | |- context [(?e / 2)%Q] => change (e / 2)%Q with (e * (1 # 2))%Q
         end.

Lemma is_zero_false (q : Q) : ~ q == 0 -> is_zero q = false.
Proof.
  intros Hq. unfold is_zero. destruct (Qeq_bool q 0) eqn:E; [|reflexivity].
  apply Qeq_bool_iff in E. contradiction.
Qed.

Lemma is_zero_true (q : Q) : q == 0 -> is_zero q = true.
Proof. intros Hq. unfold is_zero. now apply Qeq_bool_iff. Qed.

Lemma py_div_ok (a b : Q) : ~ b == 0 -> py_div a b = Ok (a / b).
Proof. intros Hb. unfold py_div. now rewrite is_zero_false. Qed.

Lemma clamp_range (x hi : Q) : 0 <= clamp x hi /\ clamp x hi <= py_max 0 hi.
Proof.
  unfold clamp, py_max, py_min.
  repeat destruct Qlt_le_dec; split; lra.
Qed.

Lemma clamp_mono (x y hi : Q) : x <= y -> clamp x hi <= clamp y hi.
Proof.
  intros Hxy. unfold clamp, py_max, py_min.
  repeat destruct Qlt_le_dec; lra.
Qed.

Lemma clamp_id (x hi : Q) : 0 <= x -> x <= hi -> clamp x hi == x.
Proof.
  intros H0 Hhi. unfold clamp, py_max, py_min.
  repeat destruct Qlt_le_dec; lra.
Qed.

Lemma extent_nonneg (lo hi : Q) : 0 <= extent lo hi.
Proof. unfold extent, py_max. destruct Qlt_le_dec; lra. Qed.

Lemma extent_ordered (lo hi : Q) : lo <= hi -> extent lo hi == hi - lo.
Proof. intros H. unfold extent, py_max. destruct Qlt_le_dec; lra. Qed.

Lemma extent_pos_iff (lo hi : Q) : 0 < extent lo hi <-> lo < hi.
Proof. unfold extent, py_max. destruct Qlt_le_dec; split; lra. Qed.

(** A box side lying in [[0, d)]: the clamped side stays in [[0, d)], keeps
    its order, and has positive length exactly when [lo] is below [d - 1]. *)
Lemma axis_inside (lo hi d : Q) :
  0 <= lo -> lo < hi -> hi < d ->
  let a := clamp lo (d - 1) in
  let b := clamp hi (d - 1) in
  0 <= a /\ a <= b /\ b < d /\ (a < b <-> lo < d - 1).
Proof.
  intros H0 Hlh Hd. cbv zeta. unfold clamp, py_max, py_min.
  repeat destruct Qlt_le_dec; repeat split; intros; lra.
Qed.

(** A box side that misses [[0, d)] entirely has no length after clamping. *)
Lemma axis_outside (lo hi d : Q) :
  hi <= 0 \/ d <= lo ->
  extent (clamp lo (d - 1)) (clamp hi (d - 1)) == 0.
Proof.
  intros H. unfold extent, clamp, py_max, py_min.
  repeat destruct Qlt_le_dec; lra.
Qed.

Lemma div_bounds (c d : Q) : 0 < d -> 0 <= c -> c <= d -> 0 <= c / d /\ c / d <= 1.
Proof.
  intros Hd H0 H1. split.
  - apply Qle_shift_div_l; lra.
  - apply Qle_shift_div_r; lra.
Qed.

Lemma div_pos_iff (c d : Q) : 0 < d -> (0 < c / d <-> 0 < c).
Proof.
  intros Hd. split; intros H.
  - assert (E : c == (c / d) * d) by (field; lra).
    rewrite E. apply Qmult_lt_0_compat; assumption.
  - apply Qlt_shift_div_l; lra.
Qed.

(** The sign test on a quotient: a negative divisor only ever meets a zero
    extent (the clamp range is then the single point 0). *)
Lemma div_nonpos_iff (c d : Q) :
  ~ d == 0 -> 0 <= c -> (d < 0 -> c == 0) -> (c / d <= 0 <-> c <= 0).
Proof.
  intros Hd Hc Hneg. split; intros H.
  - destruct (Qlt_le_dec 0 d) as [Hp|Hn].
    + destruct (Qlt_le_dec 0 c) as [Hc'|]; [|assumption].
      apply (div_pos_iff c d Hp) in Hc'. lra.
    + assert (E : c == 0) by (apply Hneg; lra). lra.
  - assert (E : c == 0) by lra. rewrite E. unfold Qdiv. lra.
Qed.

Lemma extent_negative_dim (lo hi d : Q) :
  d < 0 -> extent (clamp lo (d - 1)) (clamp hi (d - 1)) == 0.
Proof.
  intros H. unfold extent, clamp, py_max, py_min.
  repeat destruct Qlt_le_dec; lra.
Qed.

(** ** [yolo_bbox] *)

Lemma yolo_bbox_ok (xmin ymin xmax ymax w h : Q) :
  ~ w == 0 -> ~ h == 0 ->
  let a := clamp xmin (w - 1) in
  let b := clamp xmax (w - 1) in
  let c := clamp ymin (h - 1) in
  let d := clamp ymax (h - 1) in
  yolo_bbox xmin ymin xmax ymax w h
  = Ok ((a + extent a b / 2) / w, (c + extent c d / 2) / h,
        extent a b / w, extent c d / h).
Proof.
  intros Hw Hh. cbv zeta. unfold yolo_bbox.
  rewrite !py_div_ok by assumption. reflexivity.
Qed.

Lemma yolo_bbox_zero_dim (xmin ymin xmax ymax w h : Q) :
  w == 0 \/ h == 0 ->
  yolo_bbox xmin ymin xmax ymax w h = Raise ZeroDivisionError.
Proof.
  intros H. unfold yolo_bbox.
  destruct (is_zero w) eqn:Ew.
  - unfold py_div at 1. now rewrite Ew.
  - destruct H as [H|H]; [apply is_zero_true in H; congruence|].
    unfold py_div. rewrite Ew. cbn. now rewrite (is_zero_true h H).
Qed.

(** C4 as the claim states it fails: a box inside [[0,100) x [0,100)] whose
    sides both lie beyond [width - 1] is clamped to zero width. *)
Lemma yolo_bbox_inside_zero_width :
  inside_image 99.2 10 99.8 20 100 100 /\
  exists x y nw nh,
    yolo_bbox 99.2 10 99.8 20 100 100 = Ok (x, y, nw, nh) /\ ~ 0 < nw.
Proof.
  split.
  - unfold inside_image. repeat split; reflexivity || discriminate.
  - eexists _, _, _, _. split; [vm_compute; reflexivity|].
    intros H. vm_compute in H. discriminate.
Qed.

(** C4 (amended): for a proper box inside [[0,w) x [0,h)] the normalizer
    returns, centre and size lie in [[0,1]], the size is positive exactly
    when the lower corner lies below [w - 1] (resp. [h - 1]), and the
    reconstruction gives back the clamped box. *)
Theorem yolo_bbox_inside_bounds (xmin ymin xmax ymax w h : Q) :
  inside_image xmin ymin xmax ymax w h ->
  exists x y nw nh,
    yolo_bbox xmin ymin xmax ymax w h = Ok (x, y, nw, nh) /\
    (0 <= x /\ x <= 1) /\ (0 <= y /\ y <= 1) /\
    (0 <= nw /\ nw <= 1) /\ (0 <= nh /\ nh <= 1) /\
    (0 < nw <-> xmin < w - 1) /\ (0 < nh <-> ymin < h - 1) /\
    (x - nw / 2) * w == clamp xmin (w - 1) /\
    (x + nw / 2) * w == clamp xmax (w - 1) /\
    (y - nh / 2) * h == clamp ymin (h - 1) /\
    (y + nh / 2) * h == clamp ymax (h - 1).
Proof.
  intros (Hx0 & Hx & Hxw & Hy0 & Hy & Hyh).
  assert (Hw : 0 < w) by lra. assert (Hh : 0 < h) by lra.
  destruct (axis_inside xmin xmax w Hx0 Hx Hxw) as (Ha0 & Hab & Hbw & Hpx).
  destruct (axis_inside ymin ymax h Hy0 Hy Hyh) as (Hc0 & Hcd & Hdh & Hpy).
  rewrite yolo_bbox_ok by lra.
  set (a := clamp xmin (w - 1)) in *. set (b := clamp xmax (w - 1)) in *.
  set (c := clamp ymin (h - 1)) in *. set (d := clamp ymax (h - 1)) in *.
  pose proof (extent_ordered a b Hab) as Ee.
  pose proof (extent_ordered c d Hcd) as Ef.
  set (e := extent a b) in *. set (f := extent c d) in *.
  clearbody e f. clearbody a b c d.
  eexists _, _, _, _. split; [reflexivity|].
  split; [apply div_bounds; halves; lra|].
  split; [apply div_bounds; halves; lra|].
  split; [apply div_bounds; lra|].
  split; [apply div_bounds; lra|].
  split; [rewrite (div_pos_iff e w Hw), <- Hpx; split; lra|].
  split; [rewrite (div_pos_iff f h Hh), <- Hpy; split; lra|].
  split; [field; lra|].
  split; [transitivity (a + e); [field; lra|lra]|].
  split; [field; lra|].
  transitivity (c + f); [field; lra|lra].
Qed.

Lemma yolo_bbox_inside_bounds_witness :
  exists x y nw nh,
    yolo_bbox 10 10 60 40 100 50 = Ok (x, y, nw, nh) /\
    (0 <= x /\ x <= 1) /\ (0 <= y /\ y <= 1) /\
    (0 <= nw /\ nw <= 1) /\ (0 <= nh /\ nh <= 1) /\
    (0 < nw <-> 10 < 100 - 1) /\ (0 < nh <-> 10 < 50 - 1) /\
    (x - nw / 2) * 100 == clamp 10 (100 - 1) /\
    (x + nw / 2) * 100 == clamp 60 (100 - 1) /\
    (y - nh / 2) * 50 == clamp 10 (50 - 1) /\
    (y + nh / 2) * 50 == clamp 40 (50 - 1).
Proof.
  apply (yolo_bbox_inside_bounds 10 10 60 40 100 50).
  unfold inside_image. repeat split; reflexivity || discriminate.
Defined.

Local Close Scope Q_scope.

(** ** Dictionaries *)

Section DictFacts.
Context {K V : Type} `{EqDecision K}.
Implicit Types (d : dict K V) (k : K) (v : V).

Lemma dict_get_set_eq k v d : dict_get k (dict_set k v d) = Some v.
Proof.
  induction d as [|[k' v'] d IH]; cbn.
  - now rewrite decide_True.
  - destruct (decide (k' = k)) as [->|Hne]; cbn.
    + now rewrite decide_True.
    + now rewrite decide_False.
Qed.

Lemma dict_get_set_ne k k' v d :
  k <> k' -> dict_get k' (dict_set k v d) = dict_get k' d.
Proof.
  intros Hne. induction d as [|[k0 v0] d IH]; cbn.
  - now rewrite decide_False.
  - destruct (decide (k0 = k)) as [->|Hk]; cbn.
    + now rewrite !decide_False.
    + destruct (decide (k0 = k')); [reflexivity|assumption].
Qed.

Lemma dict_get_None k d : dict_get k d = None <-> k ∉ map fst d.
Proof.
  induction d as [|[k' v'] d IH]; cbn.
  - split; [intros _; apply not_elem_of_nil|reflexivity].
  - rewrite not_elem_of_cons. destruct (decide (k' = k)) as [->|Hk].
    + split; [discriminate|intros [? _]; congruence].
    + rewrite IH. split; [intros ?; split; congruence|intros [_ ?]; assumption].
Qed.

Lemma dict_get_Some_elem k v d : dict_get k d = Some v -> (k, v) ∈ d.
Proof.
  induction d as [|[k' v'] d IH]; cbn; [discriminate|].
  destruct (decide (k' = k)) as [->|Hk].
  - intros [= ->]. apply elem_of_cons. now left.
  - intros H1. apply elem_of_cons. right. now apply IH.
Qed.

Lemma dict_mem_true k d : dict_mem k d = true <-> k ∈ map fst d.
Proof.
  unfold dict_mem. destruct (dict_get k d) eqn:E.
  - split; [intros _|reflexivity].
    destruct (decide (k ∈ map fst d)) as [|Hn]; [assumption|].
    apply dict_get_None in Hn. congruence.
  - apply dict_get_None in E. split; [discriminate|contradiction].
Qed.

Lemma dict_set_fresh k v d : dict_get k d = None -> dict_set k v d = d ++ [(k, v)].
Proof.
  induction d as [|[k' v'] d IH]; cbn; [reflexivity|].
  destruct (decide (k' = k)); [discriminate|].
  intros Hd. now rewrite IH.
Qed.

Lemma dict_keys_set_present k v d :
  k ∈ map fst d -> map fst (dict_set k v d) = map fst d.
Proof.
  induction d as [|[k' v'] d IH]; cbn.
  - intros Hk. now apply elem_of_nil in Hk.
  - destruct (decide (k' = k)) as [->|Hk]; cbn; [reflexivity|].
    intros Hin. apply elem_of_cons in Hin as [->|Hin]; [congruence|].
    now rewrite IH.
Qed.

Lemma dict_keys_set k v d :
  forall x, x ∈ map fst (dict_set k v d) <-> x = k \/ x ∈ map fst d.
Proof.
  intros x. destruct (dict_get k d) eqn:E.
  - assert (Hk : k ∈ map fst d).
    { apply dict_mem_true. unfold dict_mem. now rewrite E. }
    rewrite dict_keys_set_present by assumption.
    split; [now right|intros [->|?]; assumption].
  - rewrite dict_set_fresh, map_app, elem_of_app by assumption. cbn.
    rewrite list_elem_of_singleton. tauto.
Qed.
End DictFacts.

(** ** Loops *)

Lemma for_each_app {A S} (body : A -> S -> result S) (xs ys : list A) (st : S) :
  for_each body (xs ++ ys) st = do st' <- for_each body xs st; for_each body ys st'.
Proof.
  revert st. induction xs as [|x xs IH]; intros st; cbn; [reflexivity|].
  destruct (body x st); cbn; [apply IH|reflexivity].
Qed.

(** A reflexive, transitive relation kept by every iteration is kept by the
    loop. *)
Lemma for_each_preserves {A S} (R : S -> S -> Prop)
    (body : A -> S -> result S) (xs : list A) :
  (forall s, R s s) ->
  (forall s1 s2 s3, R s1 s2 -> R s2 s3 -> R s1 s3) ->
  (forall x s s', x ∈ xs -> body x s = Ok s' -> R s s') ->
  forall s s', for_each body xs s = Ok s' -> R s s'.
Proof.
  intros Hrefl Htrans. induction xs as [|x xs IH]; intros Hbody s s'; cbn.
  - intros [= ->]. apply Hrefl.
  - destruct (body x s) as [s1|] eqn:E; cbn; [|discriminate].
    intros Hrest. apply (Htrans _ s1).
    + apply (Hbody x); [apply elem_of_cons; now left|assumption].
    + apply IH; [|assumption].
      intros y t t' Hy. apply Hbody. apply elem_of_cons. now right.
Qed.

(** ** The class registry *)

Lemma register_seen (lab : string) (st : state) (i : nat) :
  dict_get lab (classes st) = Some i -> register lab st = st.
Proof. intros H. unfold register, dict_mem. now rewrite H. Qed.

Lemma register_fresh (lab : string) (st : state) :
  dict_get lab (classes st) = None ->
  register lab st
  = set_registry (classes st ++ [(lab, next_cid st)]) (S (next_cid st)) st.
Proof.
  intros H. unfold register, dict_mem. rewrite H.
  now rewrite dict_set_fresh.
Qed.

Lemma register_get (lab : string) (st : state) :
  exists cid, dict_get lab (classes (register lab st)) = Some cid.
Proof.
  destruct (dict_get lab (classes st)) as [i|] eqn:E.
  - exists i. now rewrite (register_seen lab st i E).
  - exists (next_cid st). unfold register, dict_mem. rewrite E. cbn.
    apply dict_get_set_eq.
Qed.

Lemma register_ok (lab : string) (st : state) :
  registry_ok st -> registry_ok (register lab st).
Proof.
  intros (Hnd & Hids & Hn).
  destruct (dict_get lab (classes st)) as [i|] eqn:E.
  - rewrite (register_seen lab st i E). now repeat split.
  - rewrite (register_fresh lab st E). unfold registry_ok. cbn.
    rewrite !map_app, length_app. cbn. repeat split.
    + apply NoDup_app. split; [assumption|]. split.
      * intros x Hx Hx'. apply list_elem_of_singleton in Hx'. subst x.
        now apply dict_get_None in E.
      * apply NoDup_singleton.
    + rewrite Hids, Hn. rewrite Nat.add_1_r, seq_S. reflexivity.
    + rewrite Hn. lia.
Qed.

Lemma registry_id_bound (st : state) (lab : string) (i : nat) :
  registry_ok st -> dict_get lab (classes st) = Some i -> i < next_cid st.
Proof.
  intros (_ & Hids & Hn) Hget.
  apply dict_get_Some_elem in Hget.
  assert (Hi : i ∈ map snd (classes st)).
  { apply list_elem_of_fmap. exists (lab, i). now split. }
  rewrite Hids in Hi. apply list_elem_of_In, in_seq in Hi. lia.
Qed.

(** Counters and output tree are untouched by the registry. *)
Lemma register_frame (lab : string) (st : state) :
  st_images (register lab st) = st_images st /\
  st_instances (register lab st) = st_instances st /\
  st_skipped_instances (register lab st) = st_skipped_instances st /\
  st_scenes (register lab st) = st_scenes st /\
  out_images (register lab st) = out_images st /\
  out_labels (register lab st) = out_labels st /\
  stdout (register lab st) = stdout st.
Proof. unfold register. destruct dict_mem; now repeat split. Qed.

(** ** One instance *)

Lemma normalize_and_emit_degenerate cid xmin ymin xmax ymax w h st lc x y bw bh :
  yolo_bbox xmin ymin xmax ymax w h = Ok (x, y, bw, bh) ->
  degenerate bw bh = true ->
  normalize_and_emit cid xmin ymin xmax ymax w h st lc = Ok (count_skipped st, lc).
Proof. intros Hb Hd. unfold normalize_and_emit. rewrite Hb. cbn. now rewrite Hd. Qed.

Lemma normalize_and_emit_line cid xmin ymin xmax ymax w h st lc x y bw bh :
  yolo_bbox xmin ymin xmax ymax w h = Ok (x, y, bw, bh) ->
  degenerate bw bh = false ->
  normalize_and_emit cid xmin ymin xmax ymax w h st lc
  = Ok (st, emit (cid, x, y, bw, bh) lc).
Proof. intros Hb Hd. unfold normalize_and_emit. rewrite Hb. cbn. now rewrite Hd. Qed.

Lemma process_instance_no_label a fs src inst st lc :
  label_from_instance inst (label_field a) = None ->
  process_instance a fs src inst (st, lc) = Ok (count_skipped st, lc).
Proof. intros H. unfold process_instance. now rewrite H. Qed.

Lemma process_instance_bad_bbox a fs src inst st lc lab :
  label_from_instance inst (label_field a) = Some lab ->
  bbox_rejected (bbox inst) ->
  process_instance a fs src inst (st, lc) = Ok (count_skipped (register lab st), lc).
Proof.
  intros Hl Hb. unfold process_instance. rewrite Hl.
  destruct (register_get lab st) as [cid ->].
  destruct (bbox inst) as [[|? [|? [|? [|? [|? ?]]]]]|]; cbn in Hb;
    try reflexivity; congruence.
Qed.

Lemma process_instance_no_size a fs src inst st lc lab xmin ymin xmax ymax :
  label_from_instance inst (label_field a) = Some lab ->
  bbox inst = Some [xmin; ymin; xmax; ymax] ->
  resolve_size fs src lc = None ->
  process_instance a fs src inst (st, lc)
  = if strict a then Raise RuntimeError
    else Ok (warn (WarnMissingSize src) (register lab st), lc).
Proof.
  intros Hl Hb Hs. unfold process_instance. rewrite Hl.
  destruct (register_get lab st) as [cid ->]. now rewrite Hb, Hs.
Qed.

Lemma process_instance_normalize a fs src inst st lc lab xmin ymin xmax ymax w h lc' :
  label_from_instance inst (label_field a) = Some lab ->
  bbox inst = Some [xmin; ymin; xmax; ymax] ->
  resolve_size fs src lc = Some (w, h, lc') ->
  exists cid,
    dict_get lab (classes (register lab st)) = Some cid /\
    process_instance a fs src inst (st, lc)
    = normalize_and_emit cid xmin ymin xmax ymax w h (register lab st) lc'.
Proof.
  intros Hl Hb Hs. unfold process_instance. rewrite Hl.
  destruct (register_get lab st) as [cid Hc]. exists cid. split; [assumption|].
  now rewrite Hc, Hb, Hs.
Qed.

Lemma resolve_size_lines fs src lc w h lc' :
  resolve_size fs src lc = Some (w, h, lc') ->
  lines lc' = lines lc /\ cur_w lc' = Some w /\ cur_h lc' = Some h.
Proof.
  unfold resolve_size.
  destruct (cur_w lc) as [w0|] eqn:Ew, (cur_h lc) as [h0|] eqn:Eh;
    [intros [= <- <- <-]; auto
    |destruct (fs_image_size fs src) as [[iw ih]|];
     [intros [= <- <- <-]; cbn; auto|discriminate]..].
Qed.

(** ** Degenerate boxes *)

Local Open Scope Q_scope.

Lemma degenerate_true_iff (bw bh : Q) :
  degenerate bw bh = true <-> bw <= 0 \/ bh <= 0.
Proof.
  unfold degenerate. rewrite orb_true_iff, !Qle_bool_iff. reflexivity.
Qed.

(** C5: where [yolo_bbox] returns, the caller's test [bw <= 0 or bh <= 0]
    holds exactly when a clamped extent is not positive; a box that misses
    the image is degenerate; and a degenerate box is skipped: the skip counter
    goes up by one and no line is added, whatever the mode. *)
Theorem degenerate_iff_extent_skipped (xmin ymin xmax ymax w h : Q) :
  ~ w == 0 -> ~ h == 0 ->
  exists x y nw nh,
    yolo_bbox xmin ymin xmax ymax w h = Ok (x, y, nw, nh) /\
    (degenerate nw nh = true <->
       extent (clamp xmin (w - 1)) (clamp xmax (w - 1)) <= 0 \/
       extent (clamp ymin (h - 1)) (clamp ymax (h - 1)) <= 0) /\
    (outside_image xmin ymin xmax ymax w h -> degenerate nw nh = true) /\
    (degenerate nw nh = true ->
     forall a fs src inst st lc lc' lab,
       label_from_instance inst (label_field a) = Some lab ->
       bbox inst = Some [xmin; ymin; xmax; ymax] ->
       resolve_size fs src lc = Some (w, h, lc') ->
       exists st',
         process_instance a fs src inst (st, lc) = Ok (st', lc') /\
         lines lc' = lines lc /\
         st_skipped_instances st' = S (st_skipped_instances st) /\
         out_labels st' = out_labels st).
Proof.
  intros Hw Hh. rewrite yolo_bbox_ok by assumption.
  eexists _, _, _, _. split; [reflexivity|].
  assert (Hiff :
    degenerate (extent (clamp xmin (w - 1)) (clamp xmax (w - 1)) / w)
               (extent (clamp ymin (h - 1)) (clamp ymax (h - 1)) / h) = true <->
    extent (clamp xmin (w - 1)) (clamp xmax (w - 1)) <= 0 \/
    extent (clamp ymin (h - 1)) (clamp ymax (h - 1)) <= 0).
  { rewrite degenerate_true_iff.
    rewrite (div_nonpos_iff _ w Hw (extent_nonneg _ _)
               (extent_negative_dim xmin xmax w)).
    rewrite (div_nonpos_iff _ h Hh (extent_nonneg _ _)
               (extent_negative_dim ymin ymax h)).
    reflexivity. }
  split; [exact Hiff|]. split.
  - intros Hout. apply Hiff.
    destruct Hout as [H|[H|[H|H]]].
    + left. rewrite (axis_outside xmin xmax w); [lra|now left].
    + left. rewrite (axis_outside xmin xmax w); [lra|now right].
    + right. rewrite (axis_outside ymin ymax h); [lra|now left].
    + right. rewrite (axis_outside ymin ymax h); [lra|now right].
  - intros Hdeg a fs src inst st lc lc' lab Hl Hb Hs.
    destruct (process_instance_normalize a fs src inst st lc lab _ _ _ _ _ _ _
                Hl Hb Hs) as (cid & _ & ->).
    exists (count_skipped (register lab st)). split.
    + apply normalize_and_emit_degenerate
        with (x := ((clamp xmin (w - 1)
                     + extent (clamp xmin (w - 1)) (clamp xmax (w - 1)) / 2) / w))
             (y := ((clamp ymin (h - 1)
                     + extent (clamp ymin (h - 1)) (clamp ymax (h - 1)) / 2) / h))
             (bw := extent (clamp xmin (w - 1)) (clamp xmax (w - 1)) / w)
             (bh := extent (clamp ymin (h - 1)) (clamp ymax (h - 1)) / h);
        [apply yolo_bbox_ok; assumption|exact Hdeg].
    + destruct (resolve_size_lines _ _ _ _ _ _ Hs) as (Hlines & _).
      destruct (register_frame lab st) as (_ & _ & Hsk & _ & _ & Hol & _).
      cbn. now rewrite Hsk, Hol.
Qed.

(** The claim's example: a box at [width + 100] on a 100 x 50 image. *)
Lemma degenerate_iff_extent_skipped_witness :
  exists x y nw nh,
    yolo_bbox 200 10 200 40 100 50 = Ok (x, y, nw, nh) /\
    degenerate nw nh = true.
Proof.
  destruct (degenerate_iff_extent_skipped 200 10 200 40 100 50)
    as (x & y & nw & nh & Hb & _ & Hout & _); [discriminate..|].
  exists x, y, nw, nh. split; [exact Hb|].
  apply Hout. unfold outside_image. right. left. discriminate.
Defined.

Local Close Scope Q_scope.

(** ** The image resolver *)

Lemma head_filter_find {A} (P : A -> bool) (l : list A) :
  head (List.filter P l) = find P l.
Proof.
  induction l as [|x l IH]; cbn; [reflexivity|].
  destruct (P x); [reflexivity|exact IH].
Qed.

Lemma search_exts_first_some (fs : filesystem) (dir : string) (exts : list string) :
  search_exts fs dir exts = first_some (map (pick_for_ext fs dir) exts).
Proof.
  induction exts as [|ext exts IH]; cbn; [reflexivity|].
  unfold pick_for_ext at 1.
  set (cand := glob_ext fs dir ext).
  set (P := fun c => starts_with "beauty." (path_name c)).
  rewrite <- (head_filter_find P cand).
  destruct (List.filter P cand) as [|b bs]; cbn; [|reflexivity].
  destruct cand as [|c cs]; cbn; [exact IH|reflexivity].
Qed.

Lemma truthy_declared (f : string) :
  truthy (Some f) = true <-> declared (Some f) = Some f.
Proof.
  cbn. destruct (bool_decide (f = "")); cbn; split; congruence.
Qed.

Lemma bbox_shape (b : option (list Q)) :
  bbox_rejected b \/ exists xmin ymin xmax ymax, b = Some [xmin; ymin; xmax; ymax].
Proof.
  destruct b as [[|x0 [|x1 [|x2 [|x3 [|x4 l]]]]]|]; cbn;
    try (left; (exact I || discriminate)).
  right. now exists x0, x1, x2, x3.
Qed.

(** Every pass of the instance loop is one of the six cases. *)
Lemma process_instance_outcome a fs src inst st lc :
  instance_outcome a fs src inst st lc (process_instance a fs src inst (st, lc)).
Proof.
  destruct (label_from_instance inst (label_field a)) as [lab|] eqn:Hl.
  2:{ rewrite process_instance_no_label by assumption. now constructor. }
  destruct (bbox_shape (bbox inst)) as [Hb|(xmin & ymin & xmax & ymax & Hb)].
  { rewrite (process_instance_bad_bbox _ _ _ _ _ _ lab) by assumption.
    now apply OutBadBBox. }
  destruct (resolve_size fs src lc) as [[[w h] lc']|] eqn:Hs.
  2:{ rewrite (process_instance_no_size _ _ _ _ _ _ lab xmin ymin xmax ymax)
        by assumption.
      now apply (OutNoSize _ _ _ _ _ _ lab xmin ymin xmax ymax). }
  destruct (process_instance_normalize a fs src inst st lc lab _ _ _ _ _ _ _
              Hl Hb Hs) as (cid & Hc & ->).
  destruct (yolo_bbox xmin ymin xmax ymax w h) as [[[[x y] bw] bh]|e] eqn:Hy.
  - destruct (degenerate bw bh) eqn:Hd.
    + rewrite (normalize_and_emit_degenerate _ _ _ _ _ _ _ _ _ x y bw bh)
        by assumption.
      now apply (OutDegenerate _ _ _ _ _ _ lab xmin ymin xmax ymax w h lc' x y bw bh).
    + rewrite (normalize_and_emit_line _ _ _ _ _ _ _ _ _ x y bw bh)
        by assumption.
      now apply (OutLine _ _ _ _ _ _ lab cid xmin ymin xmax ymax w h lc' x y bw bh).
  - unfold normalize_and_emit. rewrite Hy. cbn.
    now apply (OutRaise _ _ _ _ _ _ lab xmin ymin xmax ymax w h lc' e).
Qed.

(** ** Order of the steps for one instance *)

(** C1 as the claim states it fails: the only instance has a label but no
    bounding box; it is skipped, no label line is written, and yet [car] is
    in the registry and in the manifest. *)
Lemma skipped_instance_grows_registry :
  exists st yaml,
    main default_args scene_a_fs [scene_a_no_box] ∅ ∅ = Ok (st, yaml) /\
    classes st = [("car", 0)] /\
    yaml = [(0, Some "car")] /\
    st_skipped_instances st = 1 /\
    st_instances st = 0 /\
    map_to_list (out_labels st) = [("sceneA_beauty.0001.txt", [])].
Proof.
  eexists _, _. split; [vm_compute; reflexivity|].
  repeat split; vm_compute; reflexivity.
Qed.

(** What one pass does to the registry. *)
Lemma process_instance_registry (a : args) (fs : filesystem) (src : string)
    (inst : instance) (st st' : state) (lc lc' : locals) :
  process_instance a fs src inst (st, lc) = Ok (st', lc') ->
  match label_from_instance inst (label_field a) with
  | None => classes st' = classes st /\ next_cid st' = next_cid st
  | Some lab =>
      classes st' = classes (register lab st) /\
      next_cid st' = next_cid (register lab st)
  end.
Proof.
  intros Hrun. pose proof (process_instance_outcome a fs src inst st lc) as Hout.
  rewrite Hrun in Hout.
  inversion Hout as
    [Hl
    |lab Hl Hb
    |lab x0 y0 x1 y1 Hl Hb Hs Hres
    |lab x0 y0 x1 y1 w h lc1 e Hl Hb Hs Hy
    |lab x0 y0 x1 y1 w h lc1 x y bw bh Hl Hb Hs Hy Hd
    |lab cid x0 y0 x1 y1 w h lc1 x y bw bh Hl Hc Hb Hs Hy Hd]; subst;
    rewrite Hl; try (now split).
  destruct (strict a); [discriminate|]. injection Hres as <- <-. now split.
Qed.

(** C1 (amended): the class id is obtained right after the label and before
    the bounding box is looked at.  An instance without a label leaves the
    registry alone; any other instance leaves it as [register] made it,
    skipped or not; and a line that is emitted carries the id registered for
    its label. *)
Theorem class_id_precedes_bbox (a : args) (fs : filesystem) (src : string)
    (inst : instance) (st st' : state) (lc lc' : locals) :
  process_instance a fs src inst (st, lc) = Ok (st', lc') ->
  match label_from_instance inst (label_field a) with
  | None =>
      classes st' = classes st /\ next_cid st' = next_cid st /\
      lines lc' = lines lc
  | Some lab =>
      classes st' = classes (register lab st) /\
      next_cid st' = next_cid (register lab st) /\
      (lines lc' = lines lc \/
       exists cid x y bw bh,
         dict_get lab (classes st') = Some cid /\
         lines lc' = lines lc ++ [(cid, x, y, bw, bh)])
  end.
Proof.
  intros Hrun. pose proof (process_instance_outcome a fs src inst st lc) as Hout.
  rewrite Hrun in Hout.
  inversion Hout as
    [Hl
    |lab Hl Hb
    |lab x0 y0 x1 y1 Hl Hb Hs Hres
    |lab x0 y0 x1 y1 w h lc1 e Hl Hb Hs Hy
    |lab x0 y0 x1 y1 w h lc1 x y bw bh Hl Hb Hs Hy Hd
    |lab cid x0 y0 x1 y1 w h lc1 x y bw bh Hl Hc Hb Hs Hy Hd]; subst; rewrite Hl.
  - now repeat split.
  - repeat split; now left.
  - destruct (strict a); [discriminate|]. injection Hres as <- <-.
    repeat split; now left.
  - apply resolve_size_lines in Hs as (Hlines & _).
    repeat split. now left.
  - apply resolve_size_lines in Hs as (Hlines & _).
    repeat split. right. exists cid, x, y, bw, bh. split; [assumption|].
    cbn. now rewrite Hlines.
Qed.

Lemma class_id_precedes_bbox_witness :
  exists st' lc',
    process_instance default_args scene_a_fs "in/sceneA/beauty.0001.png"
      car_without_box (initial_state ∅ ∅, no_locals (Some 100%Q) (Some 50%Q))
    = Ok (st', lc') /\
    classes st' = classes (register "car" (initial_state ∅ ∅)) /\
    next_cid st' = next_cid (register "car" (initial_state ∅ ∅)).
Proof.
  eexists _, _. split; [reflexivity|].
  destruct (class_id_precedes_bbox default_args scene_a_fs
              "in/sceneA/beauty.0001.png" car_without_box
              (initial_state ∅ ∅) _ (no_locals (Some 100%Q) (Some 50%Q)) _
              eq_refl) as (Hc & Hn & _).
  split; [exact Hc|exact Hn].
Defined.

(** ** Empty-string labels *)

(** C10 as the claim states it fails in its last part: in mode
    [class_subclass] an empty [subclass] next to a missing [class] is returned
    as the label, whereas an absent [subclass] gives no label. *)
Lemma class_subclass_keeps_blank_subclass :
  label_from_instance blank_subclass_instance ModeClassSubclass = Some "" /\
  label_from_instance (blank_fields blank_subclass_instance) ModeClassSubclass
  = None.
Proof. split; reflexivity. Qed.

Lemma truthy_blank (o : option string) :
  truthy o = match blank_to_absent o with Some _ => true | None => false end.
Proof. destruct o as [s|]; cbn; [|reflexivity]. now destruct (bool_decide (s = "")). Qed.

(** C10 (amended): in the modes [class], [subclass] and [superclass] an
    empty-string field is returned as the label; the instance loop skips for
    a missing label only, so the empty string is registered and, with a
    proper box, a line is emitted under its id.  In mode [class_subclass] an
    empty [class] reads as absent, an empty [subclass] reads as absent next
    to a non-empty [class], and otherwise the [subclass] value is returned as
    it is, the empty string included. *)
Theorem empty_label_is_a_class :
  (forall inst, class_ inst = Some "" ->
                label_from_instance inst ModeClass = Some "") /\
  (forall inst, subclass inst = Some "" ->
                label_from_instance inst ModeSubclass = Some "") /\
  (forall inst, superclass inst = Some "" ->
                label_from_instance inst ModeSuperclass = Some "") /\
  (forall a fs src inst st lc xmin ymin xmax ymax w h lc' x y bw bh,
      label_from_instance inst (label_field a) = Some "" ->
      bbox inst = Some [xmin; ymin; xmax; ymax] ->
      resolve_size fs src lc = Some (w, h, lc') ->
      yolo_bbox xmin ymin xmax ymax w h = Ok (x, y, bw, bh) ->
      degenerate bw bh = false ->
      exists cid,
        dict_get "" (classes (register "" st)) = Some cid /\
        process_instance a fs src inst (st, lc)
        = Ok (register "" st, emit (cid, x, y, bw, bh) lc')) /\
  (forall inst,
      label_from_instance inst ModeClassSubclass
      = match blank_to_absent (class_ inst) with
        | Some c =>
            match blank_to_absent (subclass inst) with
            | Some s => Some (c +:+ "/" +:+ s)
            | None => Some c
            end
        | None => subclass inst
        end).
Proof.
  split; [intros inst H; exact H|].
  split; [intros inst H; exact H|].
  split; [intros inst H; exact H|].
  split.
  - intros a fs src inst st lc xmin ymin xmax ymax w h lc' x y bw bh
           Hl Hb Hs Hy Hd.
    destruct (process_instance_normalize a fs src inst st lc "" _ _ _ _ _ _ _
                Hl Hb Hs) as (cid & Hc & ->).
    exists cid. split; [assumption|].
    now apply normalize_and_emit_line.
  - intros inst. unfold label_from_instance.
    destruct (class_ inst) as [c|], (subclass inst) as [s|]; cbn;
      repeat (destruct (bool_decide _); cbn); reflexivity.
Qed.

Lemma empty_label_is_a_class_witness :
  process_instance default_args scene_a_fs "in/sceneA/beauty.0001.png"
    blank_class_instance (initial_state ∅ ∅, no_locals (Some 100%Q) (Some 50%Q))
  = Ok (register "" (initial_state ∅ ∅),
        emit (0%nat, (10 + extent 10 60 / 2) / 100, (10 + extent 10 40 / 2) / 50,
              extent 10 60 / 100, extent 10 40 / 50)%Q
             (no_locals (Some 100%Q) (Some 50%Q))).
Proof.
  destruct empty_label_is_a_class as (_ & _ & _ & Hemit & _).
  destruct (Hemit default_args scene_a_fs "in/sceneA/beauty.0001.png"
              blank_class_instance (initial_state ∅ ∅)
              (no_locals (Some 100%Q) (Some 50%Q))
              10%Q 10%Q 60%Q 40%Q 100%Q 50%Q
              (no_locals (Some 100%Q) (Some 50%Q))
              ((10 + extent 10 60 / 2) / 100)%Q ((10 + extent 10 40 / 2) / 50)%Q
              (extent 10 60 / 100)%Q (extent 10 40 / 50)%Q
              eq_refl eq_refl eq_refl eq_refl eq_refl) as (cid & Hc & Hrun).
  cbn in Hc. injection Hc as <-. exact Hrun.
Defined.

(** ** The registry over a whole run *)

Lemma registry_ok_same (st st' : state) :
  classes st' = classes st -> next_cid st' = next_cid st ->
  registry_ok st -> registry_ok st'.
Proof. unfold registry_ok. intros -> ->. exact id. Qed.

Lemma registry_extends_refl (st : state) : registry_extends st st.
Proof. split; [exact id|]. exists []. now rewrite app_nil_r. Qed.

Lemma registry_extends_trans (s1 s2 s3 : state) :
  registry_extends s1 s2 -> registry_extends s2 s3 -> registry_extends s1 s3.
Proof.
  intros [H12 [n1 E1]] [H23 [n2 E2]]. split; [auto|].
  exists (n1 ++ n2). now rewrite E2, E1, app_assoc.
Qed.

Lemma registry_extends_same (st st' : state) :
  classes st' = classes st -> next_cid st' = next_cid st ->
  registry_extends st st'.
Proof.
  intros Hc Hn. split; [now apply registry_ok_same|].
  exists []. now rewrite app_nil_r.
Qed.

Lemma register_extends (lab : string) (st : state) :
  registry_extends st (register lab st).
Proof.
  split; [apply register_ok|].
  destruct (dict_get lab (classes st)) as [i|] eqn:E.
  - rewrite (register_seen lab st i E). exists []. now rewrite app_nil_r.
  - rewrite (register_fresh lab st E). now exists [(lab, next_cid st)].
Qed.

Lemma process_instance_extends a fs src inst st lc st' lc' :
  process_instance a fs src inst (st, lc) = Ok (st', lc') ->
  registry_extends st st'.
Proof.
  intros Hrun. apply process_instance_registry in Hrun.
  destruct (label_from_instance inst (label_field a)) as [lab|].
  - destruct Hrun as (Hc & Hn).
    apply (registry_extends_trans _ (register lab st)).
    + apply register_extends.
    + now apply registry_extends_same.
  - destruct Hrun as (Hc & Hn). now apply registry_extends_same.
Qed.

Lemma instance_loop_extends a fs src insts st lc st' lc' :
  for_each (process_instance a fs src) insts (st, lc) = Ok (st', lc') ->
  registry_extends st st'.
Proof.
  intros Hrun.
  apply (for_each_preserves
           (fun s s' : state * locals => registry_extends (fst s) (fst s'))
           (process_instance a fs src) insts) in Hrun; [exact Hrun|..].
  - intros s. apply registry_extends_refl.
  - intros s1 s2 s3. apply registry_extends_trans.
  - intros inst [s l] [s' l'] _ H. cbn. now apply process_instance_extends in H.
Qed.

Lemma process_image_extends a fs dir per_image item st st' :
  process_image a fs dir per_image item st = Ok st' ->
  registry_extends st st'.
Proof.
  destruct item as [iid m]. unfold process_image.
  assert (Hmiss : forall w,
    (if strict a then Raise FileNotFoundError else Ok (warn w st)) = Ok st' ->
    registry_extends st st').
  { intros w. destruct (strict a); [discriminate|]. intros [= <-].
    now apply registry_extends_same. }
  destruct (resolve_image_path fs dir (file_name m) (image_extensions a))
    as [src|]; [|apply Hmiss].
  destruct (fs_exists fs src); cbn [negb]; [|apply Hmiss].
  destruct (dict_get iid per_image) as [insts|]; [|discriminate].
  destruct (for_each _ insts _) as [[st1 lc1]|] eqn:Hloop; cbn; [|discriminate].
  intros [= <-]. apply instance_loop_extends in Hloop.
  apply (registry_extends_trans _ (copy_image src
           (path_name dir +:+ "_" +:+ path_name src) st)).
  - apply registry_extends_same; unfold copy_image; now destruct (_ !! _).
  - apply (registry_extends_trans _ st1); [assumption|].
    now apply registry_extends_same.
Qed.

Lemma build_per_image_registry img_map insts st :
  classes (snd (build_per_image img_map insts st)) = classes st /\
  next_cid (snd (build_per_image img_map insts st)) = next_cid st.
Proof.
  unfold build_per_image. generalize (empty_per_image img_map).
  revert st. induction insts as [|inst insts IH]; intros st pi; cbn; [auto|].
  destruct (dict_get (image_id inst) pi); [apply IH|].
  destruct (IH (count_skipped st) pi) as [Hc Hn]. now rewrite Hc, Hn.
Qed.

Lemma process_scene_extends a fs sc st st' :
  process_scene a fs sc st = Ok st' -> registry_extends st st'.
Proof.
  unfold process_scene. destruct (scene_doc sc) as [data|].
  - destruct (build_per_image_registry (build_img_map (images data))
                (instances data) (count_scene st)) as [Hc Hn].
    destruct (build_per_image _ _ _) as [pi st0]. cbn in Hc, Hn.
    intros Hrun.
    apply (registry_extends_trans _ st0); [now apply registry_extends_same|].
    revert Hrun. apply for_each_preserves.
    + apply registry_extends_refl.
    + apply registry_extends_trans.
    + intros item s s' _. apply process_image_extends.
  - destruct (strict a); [discriminate|]. intros [= <-].
    now apply registry_extends_same.
Qed.

Lemma run_extends a fs scenes st st' :
  run a fs scenes st = Ok st' -> registry_extends st st'.
Proof.
  unfold run. apply for_each_preserves.
  - apply registry_extends_refl.
  - apply registry_extends_trans.
  - intros sc s s' _. apply process_scene_extends.
Qed.

Lemma initial_state_ok imgs lbls : registry_ok (initial_state imgs lbls).
Proof. unfold registry_ok. cbn. repeat split. apply NoDup_nil_2. Qed.

(** ** The manifest *)

Lemma invert_classes_from (pre rest : dict string nat) :
  map snd rest = seq (length pre) (length rest) ->
  for_each
    (fun kv inv =>
       let '(k, v) := kv in
       if (v <? length inv)%nat then Ok (<[v := Some k]> inv)
       else Raise IndexError)
    rest (map (fun kv => Some (fst kv)) pre ++ replicate (length rest) None)
  = Ok (map (fun kv => Some (fst kv)) (pre ++ rest)).
Proof.
  revert pre. induction rest as [|[k v] rest IH]; intros pre Hids.
  - cbn. now rewrite !app_nil_r.
  - cbn in Hids. injection Hids as Hv Hrest. subst v.
    cbn [for_each length replicate].
    rewrite length_app, length_map. cbn [length]. rewrite length_replicate.
    assert (Hlt : (length pre <? length pre + S (length rest))%nat = true)
      by (apply Nat.ltb_lt; lia).
    rewrite Hlt. cbn [bind].
    rewrite insert_app_r_alt by (rewrite length_map; lia).
    rewrite length_map, Nat.sub_diag. cbn [insert list_insert].
    specialize (IH (pre ++ [(k, length pre)])).
    rewrite length_app, map_app in IH. cbn [length map] in IH.
    rewrite Nat.add_1_r in IH. specialize (IH Hrest).
    rewrite <- !app_assoc in IH. exact IH.
Qed.

Lemma invert_classes_ok (st : state) :
  registry_ok st ->
  invert_classes (classes st) = Ok (map (fun kv => Some (fst kv)) (classes st)).
Proof.
  intros (_ & Hids & _). unfold invert_classes.
  apply (invert_classes_from [] (classes st)). exact Hids.
Qed.

Lemma write_data_yaml_labels (c : dict string nat) :
  write_data_yaml (map (fun kv => Some (fst kv)) c)
  = imap (fun i l => (i, Some l)) (map fst c).
Proof.
  unfold write_data_yaml. revert c.
  assert (H : forall (f : nat -> nat) (c : dict string nat),
             imap (fun i l => (f i, l)) (map (fun kv => Some (fst kv)) c)
             = imap (fun i l => (f i, Some l)) (map fst c)).
  { intros f c. revert f. induction c as [|[k v] c IH]; intros f; cbn;
      [reflexivity|].
    f_equal. apply (IH (f ∘ S)). }
  intros c. apply (H id).
Qed.

Lemma registry_ok_enumerate (st : state) :
  registry_ok st -> classes st = enumerate (map fst (classes st)).
Proof.
  intros (_ & Hids & _). unfold enumerate.
  rewrite length_map, <- Hids. symmetry. apply zip_fst_snd.
Qed.

Lemma lookups_first_seen (labs : list string) (st : state) :
  registry_ok st ->
  registry_ok (lookups labs st) /\
  map fst (classes (lookups labs st))
  = first_seen_from (map fst (classes st)) labs.
Proof.
  unfold lookups. revert st.
  induction labs as [|lab labs IH]; intros st Hok;
    cbn [fold_left first_seen_from]; [auto|].
  destruct (IH (register lab st) (register_ok lab st Hok)) as [Hok' Hkeys].
  split; [exact Hok'|]. rewrite Hkeys.
  destruct (dict_get lab (classes st)) as [i|] eqn:E.
  - rewrite (register_seen lab st i E).
    rewrite bool_decide_true; [reflexivity|].
    apply dict_mem_true. unfold dict_mem. now rewrite E.
  - rewrite (register_fresh lab st E). cbn. rewrite map_app. cbn.
    rewrite bool_decide_false; [reflexivity|]. now apply dict_get_None.
Qed.

(** ** The registry is the first-seen numbering of the traversal *)

Lemma same_registry_refl st : same_registry st st.
Proof. now split. Qed.

Lemma same_registry_sym s t : same_registry s t -> same_registry t s.
Proof. intros [? ?]. now split. Qed.

Lemma same_registry_trans s t u :
  same_registry s t -> same_registry t u -> same_registry s u.
Proof. intros [? ?] [? ?]. split; congruence. Qed.

Lemma register_same lab s t :
  same_registry s t -> same_registry (register lab s) (register lab t).
Proof.
  intros [Hc Hn]. unfold register. rewrite Hc.
  destruct (dict_mem lab (classes t)); [now split|].
  cbn. rewrite Hn. now split.
Qed.

Lemma lookups_same labs s t :
  same_registry s t -> same_registry (lookups labs s) (lookups labs t).
Proof.
  unfold lookups. revert s t.
  induction labs as [|lab labs IH]; intros s t H; cbn; [exact H|].
  apply IH. now apply register_same.
Qed.

Lemma lookups_app l1 l2 st : lookups (l1 ++ l2) st = lookups l2 (lookups l1 st).
Proof. unfold lookups. apply fold_left_app. Qed.

Lemma process_instance_lookups a fs src inst st lc st' lc' :
  process_instance a fs src inst (st, lc) = Ok (st', lc') ->
  same_registry st' (lookups (instance_labels a [inst]) st).
Proof.
  intros Hrun. apply process_instance_registry in Hrun.
  unfold instance_labels. cbn.
  destruct (label_from_instance inst (label_field a)) as [lab|]; cbn;
    destruct Hrun as (Hc & Hn); now split.
Qed.

Lemma instance_loop_lookups a fs src insts st lc st' lc' :
  for_each (process_instance a fs src) insts (st, lc) = Ok (st', lc') ->
  same_registry st' (lookups (instance_labels a insts) st).
Proof.
  revert st lc. induction insts as [|inst insts IH]; intros st lc; cbn [for_each].
  - intros [= <- <-]. apply same_registry_refl.
  - destruct (process_instance a fs src inst (st, lc)) as [[s1 l1]|] eqn:E;
      cbn [bind]; [|discriminate].
    intros Hrest. apply IH in Hrest. apply process_instance_lookups in E.
    change (instance_labels a (inst :: insts))
      with (instance_labels a ([inst] ++ insts)).
    unfold instance_labels in *. rewrite omap_app, lookups_app.
    apply (same_registry_trans _ _ _ Hrest). now apply lookups_same.
Qed.

Lemma process_image_lookups a fs dir per_image item st st' :
  process_image a fs dir per_image item st = Ok st' ->
  same_registry st' (lookups (image_labels a fs dir per_image item) st).
Proof.
  destruct item as [iid m]. unfold process_image, image_labels. cbn [fst snd].
  assert (Hmiss : forall w,
    (if strict a then Raise FileNotFoundError else Ok (warn w st)) = Ok st' ->
    same_registry st' (lookups [] st)).
  { intros w. destruct (strict a); [discriminate|]. intros [= <-]. now split. }
  destruct (resolve_image_path fs dir (file_name m) (image_extensions a))
    as [src|]; [|apply Hmiss].
  destruct (fs_exists fs src); cbn [negb]; [|apply Hmiss].
  destruct (dict_get iid per_image) as [insts|]; [|discriminate].
  destruct (for_each _ insts _) as [[st1 lc1]|] eqn:Hloop; cbn; [|discriminate].
  intros [= <-]. apply instance_loop_lookups in Hloop.
  apply (same_registry_trans _ st1); [now split|].
  apply (same_registry_trans _ _ _ Hloop). apply lookups_same.
  unfold copy_image. destruct (_ !! _); now split.
Qed.

Lemma image_loop_lookups a fs dir per_image items st st' :
  for_each (process_image a fs dir per_image) items st = Ok st' ->
  same_registry st' (lookups (flat_map (image_labels a fs dir per_image) items) st).
Proof.
  revert st. induction items as [|item items IH]; intros st; cbn [for_each flat_map].
  - intros [= <-]. apply same_registry_refl.
  - destruct (process_image a fs dir per_image item st) as [s1|] eqn:E;
      cbn [bind]; [|discriminate].
    intros Hrest. apply IH in Hrest. apply process_image_lookups in E.
    rewrite lookups_app.
    apply (same_registry_trans _ _ _ Hrest). now apply lookups_same.
Qed.

Lemma build_per_image_state_free img_map insts st1 st2 :
  fst (build_per_image img_map insts st1) = fst (build_per_image img_map insts st2).
Proof.
  unfold build_per_image. generalize (empty_per_image img_map).
  revert st1 st2. induction insts as [|inst insts IH]; intros st1 st2 pi; cbn;
    [reflexivity|].
  destruct (dict_get (image_id inst) pi); apply IH.
Qed.

Lemma process_scene_lookups a fs sc st st' :
  process_scene a fs sc st = Ok st' ->
  same_registry st' (lookups (scene_labels a fs sc) st).
Proof.
  unfold process_scene, scene_labels. destruct (scene_doc sc) as [data|].
  - rewrite (build_per_image_state_free _ _ (initial_state ∅ ∅) (count_scene st)).
    destruct (build_per_image_registry (build_img_map (images data))
                (instances data) (count_scene st)) as [Hc Hn].
    destruct (build_per_image _ _ _) as [pi st0]. cbn in Hc, Hn. cbn [fst].
    intros Hrun. apply image_loop_lookups in Hrun.
    apply (same_registry_trans _ _ _ Hrun). apply lookups_same. now split.
  - destruct (strict a); [discriminate|]. intros [= <-]. now split.
Qed.

Lemma run_lookups a fs scenes st st' :
  run a fs scenes st = Ok st' ->
  same_registry st' (lookups (run_labels a fs scenes) st).
Proof.
  unfold run, run_labels. revert st.
  induction scenes as [|sc scenes IH]; intros st; cbn [for_each flat_map].
  - intros [= <-]. apply same_registry_refl.
  - destruct (process_scene a fs sc st) as [s1|] eqn:E; cbn [bind];
      [|discriminate].
    intros Hrest. apply IH in Hrest. apply process_scene_lookups in E.
    rewrite lookups_app.
    apply (same_registry_trans _ _ _ Hrest). now apply lookups_same.
Qed.

(** C3: [register] gives a new label the current counter and increments
    it, leaves the registry alone for a label already present, and so every
    later label gets an id above all earlier ones; over a run the registry
    only grows at its end; after a run from the empty registry it numbers the
    labels of the traversal from 0 in order of first occurrence, and the
    manifest lists exactly these labels by ascending id. *)
Theorem class_registry_first_seen_order :
  (forall lab st,
      registry_ok st ->
      registry_ok (register lab st) /\
      match dict_get lab (classes st) with
      | Some i => register lab st = st
      | None =>
          dict_get lab (classes (register lab st)) = Some (next_cid st) /\
          next_cid (register lab st) = S (next_cid st) /\
          classes (register lab st) = classes st ++ [(lab, next_cid st)] /\
          (forall l i, dict_get l (classes st) = Some i -> i < next_cid st)
      end) /\
  (forall a fs scenes st st',
      registry_ok st ->
      run a fs scenes st = Ok st' ->
      registry_ok st' /\ exists new, classes st' = classes st ++ new) /\
  (forall a fs scenes imgs lbls st,
      run a fs scenes (initial_state imgs lbls) = Ok st ->
      classes st = enumerate (first_seen (run_labels a fs scenes)) /\
      main a fs scenes imgs lbls
      = Ok (st, imap (fun i l => (i, Some l))
                     (first_seen (run_labels a fs scenes)))).
Proof.
  split; [|split].
  - intros lab st Hok. split; [now apply register_ok|].
    destruct (dict_get lab (classes st)) as [i|] eqn:E.
    + now apply (register_seen lab st i).
    + rewrite (register_fresh lab st E). cbn.
      split; [|split; [reflexivity|split; [reflexivity|]]].
      * rewrite <- (dict_set_fresh lab (next_cid st) (classes st) E).
        apply dict_get_set_eq.
      * intros l i. now apply registry_id_bound.
  - intros a fs scenes st st' Hok Hrun.
    apply run_extends in Hrun as [Hk Hnew]. split; [now apply Hk|exact Hnew].
  - intros a fs scenes imgs lbls st Hrun.
    pose proof (run_lookups _ _ _ _ _ Hrun) as [Hc Hn].
    destruct (lookups_first_seen (run_labels a fs scenes)
                (initial_state imgs lbls) (initial_state_ok imgs lbls))
      as [Hok Hkeys].
    cbn [initial_state classes map] in Hkeys. fold (first_seen (run_labels a fs scenes)) in Hkeys.
    assert (Hok' : registry_ok st)
      by (apply (registry_ok_same _ _ Hc Hn); exact Hok).
    assert (Hlabels : map fst (classes st) = first_seen (run_labels a fs scenes))
      by (rewrite Hc; exact Hkeys).
    split.
    + rewrite (registry_ok_enumerate st Hok'). now rewrite Hlabels.
    + unfold main. rewrite Hrun. cbn [bind].
      rewrite (invert_classes_ok st Hok'). cbn [bind].
      now rewrite write_data_yaml_labels, Hlabels.
Qed.

Lemma class_registry_first_seen_order_witness :
  exists st,
    run default_args scene_a_fs [scene_a_no_box] (initial_state ∅ ∅) = Ok st /\
    classes st
    = enumerate (first_seen (run_labels default_args scene_a_fs [scene_a_no_box])).
Proof.
  eexists. split; [vm_compute; reflexivity|].
  destruct class_registry_first_seen_order as (_ & _ & Hrun).
  apply (Hrun default_args scene_a_fs [scene_a_no_box] ∅ ∅).
  vm_compute. reflexivity.
Defined.

(** ** Orphaned instances *)

Lemma for_each_commute {A S} (f : S -> S) (body : A -> S -> result S)
    (xs : list A) :
  (forall x s, body x (f s) = result_map f (body x s)) ->
  forall s, for_each body xs (f s) = result_map f (for_each body xs s).
Proof.
  intros Hbody. induction xs as [|x xs IH]; intros s; cbn [for_each];
    [reflexivity|].
  rewrite Hbody. destruct (body x s) as [s1|e]; cbn; [apply IH|reflexivity].
Qed.

Lemma build_img_map_keys (ims : list image_entry) (k : option Z) :
  k ∈ map fst (build_img_map ims) <-> k ∈ map im_id ims.
Proof.
  unfold build_img_map.
  assert (H : forall d : dict (option Z) meta,
    k ∈ map fst
          (fold_left
             (fun d im =>
                dict_set (im_id im)
                  {| file_name := im_file_name im; width := im_width im;
                     height := im_height im |} d) ims d)
    <-> k ∈ map fst d \/ k ∈ map im_id ims).
  { induction ims as [|im ims IH]; intros d; cbn [fold_left map].
    - rewrite elem_of_nil. tauto.
    - rewrite IH, dict_keys_set, elem_of_cons. intuition congruence. }
  rewrite H. cbn. rewrite elem_of_nil. tauto.
Qed.

Lemma empty_per_image_get (img_map : dict (option Z) meta) (k : option Z) :
  dict_get k (empty_per_image img_map)
  = if bool_decide (k ∈ map fst img_map) then Some [] else None.
Proof.
  unfold empty_per_image, dict_keys.
  induction img_map as [|[k' m] d IH]; cbn.
  - rewrite bool_decide_false; [reflexivity|apply not_elem_of_nil].
  - destruct (decide (k' = k)) as [->|Hne].
    + rewrite bool_decide_true; [reflexivity|apply elem_of_cons; now left].
    + rewrite IH. apply (f_equal (fun b : bool => if b then Some [] else None)).
      apply bool_decide_ext. rewrite elem_of_cons. intuition congruence.
Qed.

Lemma empty_per_image_mem (ims : list image_entry) (k : option Z) :
  dict_mem k (empty_per_image (build_img_map ims))
  = bool_decide (k ∈ map im_id ims).
Proof.
  unfold dict_mem. rewrite empty_per_image_get.
  destruct (bool_decide (k ∈ map fst (build_img_map ims))) eqn:E.
  - symmetry. apply bool_decide_eq_true. apply build_img_map_keys.
    now apply bool_decide_eq_true in E.
  - symmetry. apply bool_decide_eq_false. rewrite <- build_img_map_keys.
    now apply bool_decide_eq_false in E.
Qed.

(** After the grouping loop, the list of an image id holds the instances
    with that id, in input order, and the others were counted. *)
Lemma build_per_image_get (img_map : dict (option Z) meta)
    (insts : list instance) (st : state) (k : option Z) :
  dict_get k (fst (build_per_image img_map insts st))
  = if bool_decide (k ∈ map fst img_map)
    then Some (List.filter (fun inst => bool_decide (image_id inst = k)) insts)
    else None.
Proof.
  unfold build_per_image.
  assert (H : forall (pi : dict (option Z) (list instance)) st0,
    dict_get k (fst (fold_left (fun ps inst => attach_instance inst ps) insts
                               (pi, st0)))
    = match dict_get k pi with
      | Some l =>
          Some (l ++ List.filter (fun inst => bool_decide (image_id inst = k)) insts)
      | None => None
      end).
  { induction insts as [|inst insts IH]; intros pi st0; cbn [fold_left List.filter].
    - cbn. destruct (dict_get k pi); [now rewrite app_nil_r|reflexivity].
    - unfold attach_instance at 2.
      destruct (dict_get (image_id inst) pi) as [l0|] eqn:E; rewrite IH.
      + destruct (decide (image_id inst = k)) as [Hk|Hne].
        * rewrite Hk in E |- *.
          rewrite dict_get_set_eq, E, bool_decide_true by reflexivity.
          now rewrite <- app_assoc.
        * rewrite dict_get_set_ne by assumption.
          now rewrite bool_decide_false by assumption.
      + destruct (decide (image_id inst = k)) as [Hk|Hne].
        * rewrite Hk in E. now rewrite E.
        * now rewrite bool_decide_false by assumption. }
  rewrite H, empty_per_image_get.
  now destruct (bool_decide (k ∈ map fst img_map)).
Qed.

Lemma build_per_image_skipped (ims : list image_entry) (insts : list instance)
    (st : state) :
  snd (build_per_image (build_img_map ims) insts st)
  = add_skipped (length (List.filter (is_orphan ims) insts)) st.
Proof.
  unfold build_per_image.
  assert (H : forall (pi : dict (option Z) (list instance)) st0,
    (forall k, dict_mem k pi = bool_decide (k ∈ map im_id ims)) ->
    snd (fold_left (fun ps inst => attach_instance inst ps) insts (pi, st0))
    = add_skipped (length (List.filter (is_orphan ims) insts)) st0).
  { induction insts as [|inst insts IH]; intros pi st0 Hpi;
      cbn [fold_left List.filter].
    - cbn. destruct st0; unfold add_skipped; cbn. now rewrite Nat.add_0_r.
    - unfold attach_instance at 2.
      assert (Ho : is_orphan ims inst = negb (dict_mem (image_id inst) pi))
        by (unfold is_orphan; now rewrite Hpi).
      rewrite Ho. pose proof (Hpi (image_id inst)) as Hk.
      unfold dict_mem in Hk |- *.
      destruct (dict_get (image_id inst) pi) as [l0|] eqn:E; cbn [negb].
      + apply IH. intros k. unfold dict_mem.
        destruct (decide (image_id inst = k)) as [Heq|Hne].
        * rewrite Heq, dict_get_set_eq. now rewrite <- Heq, <- Hk.
        * rewrite dict_get_set_ne by assumption. apply Hpi.
      + rewrite (IH pi (count_skipped st0) Hpi).
        unfold add_skipped, count_skipped. cbn. f_equal. lia. }
  apply H. apply empty_per_image_mem.
Qed.

Lemma add_skipped_zero (st : state) : add_skipped 0 st = st.
Proof. destruct st. unfold add_skipped. cbn. now rewrite Nat.add_0_r. Qed.

Lemma register_add_skipped (k : nat) (lab : string) (st : state) :
  register lab (add_skipped k st) = add_skipped k (register lab st).
Proof. unfold register. cbn. now destruct (dict_mem lab (classes st)). Qed.

Lemma process_instance_add_skipped a fs src inst k st lc :
  process_instance a fs src inst (add_skipped k st, lc)
  = result_map (fun sl => (add_skipped k (fst sl), snd sl))
               (process_instance a fs src inst (st, lc)).
Proof.
  unfold process_instance.
  destruct (label_from_instance inst (label_field a)) as [lab|]; [|reflexivity].
  rewrite register_add_skipped. cbn [classes add_skipped].
  destruct (dict_get lab (classes (register lab st))) as [cid|]; [|reflexivity].
  destruct (bbox inst) as [[|x0 [|x1 [|x2 [|x3 [|x4 l]]]]]|]; try reflexivity.
  destruct (resolve_size fs src lc) as [[[w h] lc']|].
  - unfold normalize_and_emit.
    destruct (yolo_bbox x0 x1 x2 x3 w h) as [[[[x y] bw] bh]|e]; [|reflexivity].
    cbn. now destruct (degenerate bw bh).
  - now destruct (strict a).
Qed.

Lemma process_image_add_skipped a fs dir per_image item k st :
  process_image a fs dir per_image item (add_skipped k st)
  = result_map (add_skipped k) (process_image a fs dir per_image item st).
Proof.
  destruct item as [iid m]. unfold process_image.
  destruct (resolve_image_path fs dir (file_name m) (image_extensions a))
    as [src|]; [|now destruct (strict a)].
  destruct (fs_exists fs src); cbn [negb]; [|now destruct (strict a)].
  destruct (dict_get iid per_image) as [insts|]; [|reflexivity].
  set (out_img := path_name dir +:+ "_" +:+ path_name src).
  assert (Hcopy : copy_image src out_img (add_skipped k st)
                  = add_skipped k (copy_image src out_img st)).
  { unfold copy_image. cbn. now destruct (out_images st !! out_img). }
  rewrite Hcopy.
  pose proof (for_each_commute
                (fun sl : state * locals => (add_skipped k (fst sl), snd sl))
                (process_instance a fs src) insts) as Hloop.
  specialize (Hloop (fun inst sl =>
    match sl with (s, l) => process_instance_add_skipped a fs src inst k s l end)).
  specialize (Hloop (copy_image src out_img st,
                     {| lines := []; cur_w := width m; cur_h := height m |})).
  cbn [fst snd] in Hloop. rewrite Hloop.
  destruct (for_each (process_instance a fs src) insts
              (copy_image src out_img st, _)) as [[st1 lc1]|e]; reflexivity.
Qed.

Lemma build_per_image_without_orphans (ims : list image_entry)
    (insts : list instance) (st st' : state) :
  fst (build_per_image (build_img_map ims) insts st)
  = fst (build_per_image (build_img_map ims)
           (List.filter (fun inst => negb (is_orphan ims inst)) insts) st').
Proof.
  unfold build_per_image.
  assert (H : forall (pi : dict (option Z) (list instance)) s s',
    (forall k, dict_mem k pi = bool_decide (k ∈ map im_id ims)) ->
    fst (fold_left (fun ps inst => attach_instance inst ps) insts (pi, s))
    = fst (fold_left (fun ps inst => attach_instance inst ps)
             (List.filter (fun inst => negb (is_orphan ims inst)) insts)
             (pi, s'))).
  { induction insts as [|inst insts IH]; intros pi s s' Hpi;
      cbn [fold_left List.filter]; [reflexivity|].
    assert (Ho : is_orphan ims inst = negb (dict_mem (image_id inst) pi))
      by (unfold is_orphan; now rewrite Hpi).
    rewrite Ho, negb_involutive. unfold attach_instance at 2. unfold dict_mem.
    pose proof (Hpi (image_id inst)) as Hk. unfold dict_mem in Hk.
    destruct (dict_get (image_id inst) pi) as [l0|] eqn:E.
    - cbn [fold_left]. unfold attach_instance at 3. rewrite E.
      apply IH. intros k. unfold dict_mem.
      destruct (decide (image_id inst = k)) as [Heq|Hne].
      + rewrite Heq, dict_get_set_eq. now rewrite <- Heq, <- Hk.
      + rewrite dict_get_set_ne by assumption. apply Hpi.
    - now apply IH. }
  apply H. apply empty_per_image_mem.
Qed.

Lemma no_orphans_left (ims : list image_entry) (insts : list instance) :
  List.filter (is_orphan ims)
    (List.filter (fun inst => negb (is_orphan ims inst)) insts) = [].
Proof.
  induction insts as [|inst insts IH]; cbn; [reflexivity|].
  destruct (is_orphan ims inst) eqn:E; cbn; [exact IH|].
  now rewrite E.
Qed.

(** A scene is processed as if its orphaned instances were not there,
    except that each of them is counted as skipped. *)
Lemma process_scene_without_orphans a fs sc data st :
  scene_doc sc = Some data ->
  process_scene a fs sc st
  = result_map (add_skipped (length (orphans data)))
               (process_scene a fs (without_orphans sc) st).
Proof.
  intros Hdoc. unfold process_scene, without_orphans. cbn [scene_doc scene_dir].
  rewrite Hdoc. cbn [images instances].
  set (m := build_img_map (images data)).
  set (kept := List.filter (fun inst => negb (is_orphan (images data) inst))
                           (instances data)).
  pose proof (build_per_image_without_orphans (images data) (instances data)
                (count_scene st) (count_scene st)) as Hpi.
  pose proof (build_per_image_skipped (images data) (instances data)
                (count_scene st)) as Hs.
  pose proof (build_per_image_skipped (images data) kept (count_scene st)) as Hs'.
  unfold kept in Hs'. rewrite no_orphans_left in Hs'. cbn [length] in Hs'.
  rewrite add_skipped_zero in Hs'. fold kept in Hs', Hpi. fold m in Hpi, Hs, Hs'.
  destruct (build_per_image m (instances data) (count_scene st)) as [pi s1].
  destruct (build_per_image m kept (count_scene st)) as [pi' s1'].
  cbn [fst snd] in Hpi, Hs, Hs'. subst pi' s1 s1'.
  apply for_each_commute. intros item s. apply process_image_add_skipped.
Qed.

(** C7: an instance whose [image_id] matches no image entry is counted
    once in [skipped_instances] by the grouping loop, is in no per-image
    list, and the scene is processed exactly as without it: it adds no line
    to any label file. *)
Theorem orphan_instances_counted_and_dropped (a : args) (fs : filesystem)
    (sc : scene) (data : document) (st : state) :
  scene_doc sc = Some data ->
  let img_map := build_img_map (images data) in
  let grouped := build_per_image img_map (instances data) st in
  st_skipped_instances (snd grouped)
  = st_skipped_instances st + length (orphans data) /\
  (forall iid l,
      dict_get iid (fst grouped) = Some l ->
      iid ∈ map im_id (images data) /\
      l = List.filter (fun inst => bool_decide (image_id inst = iid))
                      (instances data) /\
      forall inst, inst ∈ orphans data -> inst ∉ l) /\
  process_scene a fs sc st
  = result_map (add_skipped (length (orphans data)))
               (process_scene a fs (without_orphans sc) st).
Proof.
  intros Hdoc img_map grouped. split; [|split].
  - unfold grouped, img_map. now rewrite build_per_image_skipped.
  - intros iid l Hget. unfold grouped, img_map in Hget.
    rewrite build_per_image_get in Hget.
    destruct (bool_decide (iid ∈ map fst (build_img_map (images data)))) eqn:E;
      [|discriminate].
    apply bool_decide_eq_true, build_img_map_keys in E.
    injection Hget as <-. split; [exact E|]. split; [reflexivity|].
    intros inst Horph Hin.
    apply list_elem_of_In, filter_In in Horph as [_ Horph].
    apply list_elem_of_In, filter_In in Hin as [_ Hin].
    apply bool_decide_eq_true in Hin. unfold is_orphan in Horph.
    rewrite Hin in Horph. rewrite bool_decide_true in Horph by exact E.
    discriminate.
  - now apply process_scene_without_orphans.
Qed.

Lemma orphan_instances_counted_and_dropped_witness :
  st_skipped_instances
    (snd (build_per_image (build_img_map (images doc_a_with_orphan))
                          (instances doc_a_with_orphan) (initial_state ∅ ∅)))
  = 0 + length (orphans doc_a_with_orphan) /\
  orphans doc_a_with_orphan = [stray_dog].
Proof.
  split; [|vm_compute; reflexivity].
  apply (orphan_instances_counted_and_dropped default_args scene_a_fs
           scene_a_with_orphan doc_a_with_orphan (initial_state ∅ ∅)).
  reflexivity.
Defined.

(** ** One image: the label file and the counters *)

(** The instance loop touches neither the image and instance counters nor
    the output tree. *)
Lemma process_instance_frame a fs src inst st lc st' lc' :
  process_instance a fs src inst (st, lc) = Ok (st', lc') ->
  st_images st' = st_images st /\ st_instances st' = st_instances st /\
  st_scenes st' = st_scenes st /\
  out_images st' = out_images st /\ out_labels st' = out_labels st.
Proof.
  intros Hrun. pose proof (process_instance_outcome a fs src inst st lc) as Hout.
  rewrite Hrun in Hout.
  inversion Hout as
    [Hl
    |lab Hl Hb
    |lab x0 y0 x1 y1 Hl Hb Hs Hres
    |lab x0 y0 x1 y1 w h lc1 e Hl Hb Hs Hy
    |lab x0 y0 x1 y1 w h lc1 x y bw bh Hl Hb Hs Hy Hd
    |lab cid x0 y0 x1 y1 w h lc1 x y bw bh Hl Hc Hb Hs Hy Hd]; subst.
  - now repeat split.
  - destruct (register_frame lab st) as (? & ? & _ & ? & ? & ? & _).
    now repeat split.
  - destruct (strict a); [discriminate|]. injection Hres as <- <-.
    destruct (register_frame lab st) as (? & ? & _ & ? & ? & ? & _).
    now repeat split.
  - destruct (register_frame lab st) as (? & ? & _ & ? & ? & ? & _).
    now repeat split.
  - destruct (register_frame lab st) as (? & ? & _ & ? & ? & ? & _).
    now repeat split.
Qed.

Lemma instance_loop_frame a fs src insts st lc st' lc' :
  for_each (process_instance a fs src) insts (st, lc) = Ok (st', lc') ->
  st_images st' = st_images st /\ st_instances st' = st_instances st /\
  st_scenes st' = st_scenes st /\
  out_images st' = out_images st /\ out_labels st' = out_labels st.
Proof.
  intros Hrun.
  apply (for_each_preserves
           (fun s s' : state * locals =>
              st_images (fst s') = st_images (fst s) /\
              st_instances (fst s') = st_instances (fst s) /\
              st_scenes (fst s') = st_scenes (fst s) /\
              out_images (fst s') = out_images (fst s) /\
              out_labels (fst s') = out_labels (fst s))
           (process_instance a fs src) insts) in Hrun; [exact Hrun|..].
  - intros s. now repeat split.
  - intros s1 s2 s3 (? & ? & ? & ? & ?) (? & ? & ? & ? & ?).
    repeat split; congruence.
  - intros inst [s l] [s' l'] _ H. cbn. now apply process_instance_frame in H.
Qed.

(** A loop over rejected instances only emits nothing and cannot raise. *)
Lemma instance_loop_all_rejected a fs src insts st lc :
  Forall (instance_rejected a) insts ->
  exists st',
    for_each (process_instance a fs src) insts (st, lc) = Ok (st', lc).
Proof.
  intros Hall. revert st. induction Hall as [|inst insts Hrej _ IH]; intros st.
  - now exists st.
  - cbn [for_each].
    destruct (label_from_instance inst (label_field a)) as [lab|] eqn:Hl.
    + destruct Hrej as [Hno|Hb]; [congruence|].
      rewrite (process_instance_bad_bbox _ _ _ _ _ _ lab Hl Hb). cbn [bind].
      apply IH.
    + rewrite (process_instance_no_label _ _ _ _ _ _ Hl). cbn [bind]. apply IH.
Qed.

Lemma inject_Z_nonzero (z : Z) : z <> 0%Z -> ~ (inject_Z z == 0)%Q.
Proof. intros Hz H. apply Hz. unfold Qeq in H. cbn in H. lia. Qed.

Lemma resolve_size_nonzero fs src lc w h lc' :
  dims_ok fs src (cur_w lc) (cur_h lc) ->
  resolve_size fs src lc = Some (w, h, lc') ->
  ~ (w == 0)%Q /\ ~ (h == 0)%Q /\ dims_ok fs src (cur_w lc') (cur_h lc').
Proof.
  unfold dims_ok, resolve_size.
  destruct (cur_w lc) as [w0|] eqn:Ew, (cur_h lc) as [h0|] eqn:Eh.
  - intros [Hw Hh] [= <- <- <-]. rewrite Ew, Eh. auto.
  - destruct (fs_image_size fs src) as [[iw ih]|]; [|discriminate].
    intros [Hw Hh] [= <- <- <-]. cbn. auto using inject_Z_nonzero.
  - destruct (fs_image_size fs src) as [[iw ih]|]; [|discriminate].
    intros [Hw Hh] [= <- <- <-]. cbn. auto using inject_Z_nonzero.
  - destruct (fs_image_size fs src) as [[iw ih]|]; [|discriminate].
    intros [Hw Hh] [= <- <- <-]. cbn. auto using inject_Z_nonzero.
Qed.

(** In tolerant mode, with no zero dimension, a pass never raises. *)
Lemma process_instance_total a fs src inst st lc :
  strict a = false ->
  dims_ok fs src (cur_w lc) (cur_h lc) ->
  exists st' lc',
    process_instance a fs src inst (st, lc) = Ok (st', lc') /\
    dims_ok fs src (cur_w lc') (cur_h lc').
Proof.
  intros Htol Hdims.
  destruct (label_from_instance inst (label_field a)) as [lab|] eqn:Hl.
  2:{ rewrite process_instance_no_label by assumption. eauto. }
  destruct (bbox_shape (bbox inst)) as [Hb|(xmin & ymin & xmax & ymax & Hb)].
  { rewrite (process_instance_bad_bbox _ _ _ _ _ _ lab) by assumption. eauto. }
  destruct (resolve_size fs src lc) as [[[w h] lc1]|] eqn:Hs.
  2:{ rewrite (process_instance_no_size _ _ _ _ _ _ lab xmin ymin xmax ymax)
        by assumption.
      rewrite Htol. eauto. }
  destruct (resolve_size_nonzero fs src lc w h lc1 Hdims Hs) as (Hw & Hh & Hd1).
  destruct (process_instance_normalize a fs src inst st lc lab _ _ _ _ _ _ _
              Hl Hb Hs) as (cid & _ & ->).
  unfold normalize_and_emit. rewrite (yolo_bbox_ok _ _ _ _ _ _ Hw Hh).
  cbn [bind]. destruct (degenerate _ _); eauto.
Qed.

Lemma instance_loop_total a fs src insts st lc :
  strict a = false ->
  dims_ok fs src (cur_w lc) (cur_h lc) ->
  exists st' lc', for_each (process_instance a fs src) insts (st, lc) = Ok (st', lc').
Proof.
  intros Htol. revert st lc.
  induction insts as [|inst insts IH]; intros st lc Hdims; cbn [for_each].
  - eauto.
  - destruct (process_instance_total a fs src inst st lc Htol Hdims)
      as (s1 & l1 & -> & Hd1).
    cbn [bind]. now apply IH.
Qed.

Lemma process_image_resolved a fs dir per_image iid m st src insts :
  resolve_image_path fs dir (file_name m) (image_extensions a) = Some src ->
  fs_exists fs src = true ->
  dict_get iid per_image = Some insts ->
  process_image a fs dir per_image (iid, m) st
  = do r <- for_each (process_instance a fs src) insts
              (copy_image src (path_name dir +:+ "_" +:+ path_name src) st,
               {| lines := []; cur_w := width m; cur_h := height m |});
    Ok (write_label
          (path_stem (path_name dir +:+ "_" +:+ path_name src) +:+ ".txt")
          (lines (snd r)) (fst r)).
Proof.
  intros Hres Hex Hget. unfold process_image. rewrite Hres, Hex, Hget.
  cbn [negb]. destruct (for_each _ insts _) as [[st1 lc1]|e]; reflexivity.
Qed.

(** C8: for a resolved image the label file is written with exactly the
    lines the instance loop emitted, [images] goes up by one and [instances]
    by the number of those lines; when every attached instance is rejected
    (in particular when there is none) the file is written empty; and in
    tolerant mode, with no zero dimension, the file is always written. *)
Theorem label_file_written_even_when_empty (a : args) (fs : filesystem)
    (dir : string) (per_image : dict (option Z) (list instance))
    (iid : option Z) (m : meta) (st : state) (src : string)
    (insts : list instance) :
  resolve_image_path fs dir (file_name m) (image_extensions a) = Some src ->
  fs_exists fs src = true ->
  dict_get iid per_image = Some insts ->
  let out_lbl :=
    path_stem (path_name dir +:+ "_" +:+ path_name src) +:+ ".txt" in
  (forall st',
      process_image a fs dir per_image (iid, m) st = Ok st' ->
      exists st1 lc,
        for_each (process_instance a fs src) insts
          (copy_image src (path_name dir +:+ "_" +:+ path_name src) st,
           {| lines := []; cur_w := width m; cur_h := height m |})
        = Ok (st1, lc) /\
        out_labels st' !! out_lbl = Some (lines lc) /\
        st_images st' = S (st_images st) /\
        st_instances st' = st_instances st + length (lines lc)) /\
  (Forall (instance_rejected a) insts ->
   exists st',
     process_image a fs dir per_image (iid, m) st = Ok st' /\
     out_labels st' !! out_lbl = Some [] /\
     st_images st' = S (st_images st) /\
     st_instances st' = st_instances st) /\
  (strict a = false ->
   dims_ok fs src (width m) (height m) ->
   exists st' ls,
     process_image a fs dir per_image (iid, m) st = Ok st' /\
     out_labels st' !! out_lbl = Some ls).
Proof.
  intros Hres Hex Hget out_lbl.
  rewrite (process_image_resolved a fs dir per_image iid m st src insts
             Hres Hex Hget).
  set (st0 := copy_image src (path_name dir +:+ "_" +:+ path_name src) st).
  assert (Hcopy : st_images st0 = st_images st /\
                  st_instances st0 = st_instances st).
  { unfold st0, copy_image. now destruct (_ !! _). }
  destruct Hcopy as [Hci Hcn].
  split; [|split].
  - intros st' Hrun.
    destruct (for_each _ insts _) as [[st1 lc1]|e] eqn:Hloop; [|discriminate].
    cbn in Hrun. injection Hrun as <-.
    exists st1, lc1. split; [reflexivity|].
    apply instance_loop_frame in Hloop as (Hi & Hn & _ & _ & _).
    cbn. rewrite lookup_insert_eq, Hi, Hn, Hci, Hcn. now repeat split.
  - intros Hall.
    destruct (instance_loop_all_rejected a fs src insts st0
                {| lines := []; cur_w := width m; cur_h := height m |} Hall)
      as [st1 Hloop].
    rewrite Hloop. cbn [bind fst snd lines].
    eexists. split; [reflexivity|].
    apply instance_loop_frame in Hloop as (Hi & Hn & _ & _ & _).
    cbn. rewrite lookup_insert_eq, Hi, Hn, Hci, Hcn, Nat.add_0_r.
    now repeat split.
  - intros Htol Hdims.
    destruct (instance_loop_total a fs src insts st0
                {| lines := []; cur_w := width m; cur_h := height m |}
                Htol Hdims) as (st1 & lc1 & Hloop).
    rewrite Hloop. cbn [bind fst snd].
    eexists _, _. split; [reflexivity|]. cbn. apply lookup_insert_eq.
Qed.

(** The image of scene A with nothing attached to it. *)
Lemma label_file_written_even_when_empty_witness :
  exists st',
    process_image default_args scene_a_fs "in/sceneA" [(Some 1%Z, [])]
      (Some 1%Z,
       {| file_name := Some "beauty.0001.png";
          width := Some 100%Q; height := Some 50%Q |})
      (initial_state ∅ ∅) = Ok st' /\
    out_labels st' !! "sceneA_beauty.0001.txt" = Some [] /\
    st_images st' = 1 /\ st_instances st' = 0.
Proof.
  destruct (label_file_written_even_when_empty default_args scene_a_fs
              "in/sceneA" [(Some 1%Z, [])] (Some 1%Z)
              {| file_name := Some "beauty.0001.png";
                 width := Some 100%Q; height := Some 50%Q |}
              (initial_state ∅ ∅) "in/sceneA/beauty.0001.png" []
              eq_refl eq_refl eq_refl) as (_ & Hempty & _).
  exact (Hempty (List.Forall_nil _)).
Defined.

(** ** Colliding output names *)

(** C2 on the code: two scenes named [scene1] under different parents both
    yield [scene1_beauty.png]. After the first, the image comes from [in/a]
    with the [car] line; after the second, the image is still the one from
    [in/a] but the label file holds the [dog] line of [in/b]. *)
Theorem colliding_names_keep_image_overwrite_label :
  exists st1 st2 car_line dog_line,
    run default_args twin_fs [twin_first] (initial_state ∅ ∅) = Ok st1 /\
    run default_args twin_fs [twin_second] st1 = Ok st2 /\
    out_images st1 !! "scene1_beauty.png" = Some "in/a/scene1/beauty.png" /\
    out_images st2 !! "scene1_beauty.png" = Some "in/a/scene1/beauty.png" /\
    out_labels st1 !! "scene1_beauty.txt" = Some [car_line] /\
    out_labels st2 !! "scene1_beauty.txt" = Some [dog_line] /\
    fst (fst (fst (fst car_line))) = 0 /\
    fst (fst (fst (fst dog_line))) = 1 /\
    st_images st2 = 2.
Proof.
  eexists _, _, _, _.
  split; [vm_compute; reflexivity|].
  split; [vm_compute; reflexivity|].
  repeat split; vm_compute; reflexivity.
Qed.

(** ** Strict and tolerant mode *)

Lemma for_each_impl {A S} (f g : A -> S -> result S) (xs : list A) :
  (forall x s s', f x s = Ok s' -> g x s = Ok s') ->
  forall s s', for_each f xs s = Ok s' -> for_each g xs s = Ok s'.
Proof.
  intros Hfg. induction xs as [|x xs IH]; intros s s'; cbn [for_each];
    [exact id|].
  destruct (f x s) as [s1|e] eqn:E; cbn [bind]; [|discriminate].
  rewrite (Hfg x s s1 E). cbn [bind]. apply IH.
Qed.

(** With a measure that no iteration decreases: if every iteration of [g]
    that leaves the measure alone is also an iteration of [f], so is every
    run of the loop. *)
Lemma for_each_quiet {A S} (mu : S -> nat) (f g : A -> S -> result S)
    (xs : list A) :
  (forall x s s', g x s = Ok s' -> mu s <= mu s') ->
  (forall x s s', g x s = Ok s' -> mu s' <= mu s -> f x s = Ok s') ->
  forall s s',
    for_each g xs s = Ok s' -> mu s' <= mu s -> for_each f xs s = Ok s'.
Proof.
  intros Hmono Hquiet. induction xs as [|x xs IH]; intros s s';
    cbn [for_each]; [intros H _; exact H|].
  destruct (g x s) as [s1|e] eqn:E; cbn [bind]; [|discriminate].
  intros Hrest Hmu.
  assert (Htail : mu s1 <= mu s').
  { revert Hrest. apply (for_each_preserves (fun t t' => mu t <= mu t')).
    - intros t. lia.
    - intros t1 t2 t3. lia.
    - intros y t t' _. apply Hmono. }
  pose proof (Hmono x s s1 E) as Hhead.
  rewrite (Hquiet x s s1 E) by lia. cbn [bind]. apply IH; [assumption|lia].
Qed.

Lemma for_each_mono {A S} (mu : S -> nat) (g : A -> S -> result S)
    (xs : list A) :
  (forall x s s', g x s = Ok s' -> mu s <= mu s') ->
  forall s s', for_each g xs s = Ok s' -> mu s <= mu s'.
Proof.
  intros Hmono. apply (for_each_preserves (fun t t' => mu t <= mu t')).
  - intros t. lia.
  - intros t1 t2 t3. lia.
  - intros y t t' _. apply Hmono.
Qed.

Lemma register_printed lab st : printed (register lab st) = printed st.
Proof.
  unfold printed. destruct (register_frame lab st) as (_ & _ & _ & _ & _ & _ & H).
  now rewrite H.
Qed.

(** The mode decides one thing in the instance loop: what happens when the
    image size cannot be read. *)
Lemma process_instance_modes a fs src inst st lc :
  (forall r, process_instance (with_strict true a) fs src inst (st, lc) = Ok r ->
             process_instance (with_strict false a) fs src inst (st, lc) = Ok r) /\
  (forall b st' lc',
      process_instance (with_strict b a) fs src inst (st, lc) = Ok (st', lc') ->
      printed st <= printed st') /\
  (forall st' lc',
      process_instance (with_strict false a) fs src inst (st, lc) = Ok (st', lc') ->
      printed st' <= printed st ->
      process_instance (with_strict true a) fs src inst (st, lc) = Ok (st', lc')).
Proof.
  unfold process_instance. cbn [label_field with_strict strict].
  destruct (label_from_instance inst (label_field a)) as [lab|].
  2:{ split; [auto|]. split; [|auto]. intros b st' lc' [= <- <-].
      unfold printed. cbn. lia. }
  destruct (dict_get lab (classes (register lab st))) as [cid|].
  2:{ split; [auto|]. split; [|auto]. intros b st' lc'. discriminate. }
  pose proof (register_printed lab st) as Hreg.
  destruct (bbox inst) as [[|x0 [|x1 [|x2 [|x3 [|x4 l]]]]]|];
    try (split; [auto|]; split; [|auto]; intros b st' lc' [= <- <-];
         unfold printed in *; cbn; lia).
  destruct (resolve_size fs src lc) as [[[w h] lc1]|].
  - split; [auto|]. split; [|auto]. intros b st' lc'.
    unfold normalize_and_emit.
    destruct (yolo_bbox x0 x1 x2 x3 w h) as [[[[x y] bw] bh]|e];
      [|discriminate].
    cbn. destruct (degenerate bw bh); intros [= <- <-];
      unfold printed in *; cbn; lia.
  - split; [discriminate|]. split.
    + intros [|] st' lc'; [discriminate|]. intros [= <- <-].
      unfold printed in *. cbn. rewrite length_app. lia.
    + intros st' lc' [= <- <-]. unfold printed in *. cbn.
      rewrite length_app. cbn. lia.
Qed.

Lemma copy_image_printed src out st : printed (copy_image src out st) = printed st.
Proof. unfold copy_image, printed. now destruct (_ !! _). Qed.

Lemma process_image_modes a fs dir per_image item st :
  (forall st', process_image (with_strict true a) fs dir per_image item st = Ok st' ->
               process_image (with_strict false a) fs dir per_image item st = Ok st') /\
  (forall b st',
      process_image (with_strict b a) fs dir per_image item st = Ok st' ->
      printed st <= printed st') /\
  (forall st',
      process_image (with_strict false a) fs dir per_image item st = Ok st' ->
      printed st' <= printed st ->
      process_image (with_strict true a) fs dir per_image item st = Ok st').
Proof.
  destruct item as [iid m]. unfold process_image.
  cbn [image_extensions with_strict strict].
  assert (Hmiss : forall w,
    (forall st', Raise FileNotFoundError = Ok st' -> Ok (warn w st) = Ok st') /\
    (forall (b : bool) st',
        (if b then Raise FileNotFoundError else Ok (warn w st)) = Ok st' ->
        printed st <= printed st') /\
    (forall st', Ok (warn w st) = Ok st' -> printed st' <= printed st ->
                 @Raise state FileNotFoundError = Ok st')).
  { intros w. split; [discriminate|]. split.
    - intros [|] st'; [discriminate|]. intros [= <-].
      unfold printed. cbn. rewrite length_app. lia.
    - intros st' [= <-]. unfold printed. cbn. rewrite length_app. cbn. lia. }
  destruct (resolve_image_path fs dir (file_name m) (image_extensions a))
    as [src|]; [|apply Hmiss].
  destruct (fs_exists fs src); cbn [negb]; [|apply Hmiss].
  destruct (dict_get iid per_image) as [insts|].
  2:{ split; [auto|]. split; [|auto]. intros b st'. discriminate. }
  set (out_img := path_name dir +:+ "_" +:+ path_name src).
  set (lc0 := {| lines := []; cur_w := width m; cur_h := height m |}).
  pose proof (copy_image_printed src out_img st) as Hcopy.
  set (st0 := copy_image src out_img st) in *.
  assert (Hmono : forall b inst (s s' : state * locals),
    process_instance (with_strict b a) fs src inst s = Ok s' ->
    printed (fst s) <= printed (fst s')).
  { intros b inst [s l] [s' l'] H.
    destruct (process_instance_modes a fs src inst s l) as (_ & Hm & _).
    exact (Hm b s' l' H). }
  split; [|split].
  - intros st'.
    destruct (for_each (process_instance (with_strict true a) fs src) insts
                (st0, lc0)) as [[st1 lc1]|e] eqn:Hloop; [|discriminate].
    apply (for_each_impl _ (process_instance (with_strict false a) fs src))
      in Hloop.
    + now rewrite Hloop.
    + intros inst [s l] s' H.
      destruct (process_instance_modes a fs src inst s l) as (Hi & _ & _).
      exact (Hi s' H).
  - intros b st'.
    destruct (for_each (process_instance (with_strict b a) fs src) insts
                (st0, lc0)) as [[st1 lc1]|e] eqn:Hloop; [|discriminate].
    cbn [bind]. intros [= <-].
    apply (for_each_mono (fun s : state * locals => printed (fst s)))
      in Hloop; [|apply Hmono].
    cbn [fst] in Hloop. unfold printed in *. cbn. lia.
  - intros st'.
    destruct (for_each (process_instance (with_strict false a) fs src) insts
                (st0, lc0)) as [[st1 lc1]|e] eqn:Hloop; [|discriminate].
    cbn [bind]. intros [= <-] Hq.
    apply (for_each_quiet (fun s : state * locals => printed (fst s))
             (process_instance (with_strict true a) fs src)) in Hloop.
    + now rewrite Hloop.
    + apply Hmono.
    + intros inst [s l] [s' l'] H Hle.
      destruct (process_instance_modes a fs src inst s l) as (_ & _ & Hq').
      exact (Hq' s' l' H Hle).
    + cbn [fst]. unfold printed in *. cbn in Hq. lia.
Qed.

Lemma build_per_image_printed img_map insts st :
  printed (snd (build_per_image img_map insts st)) = printed st.
Proof.
  unfold build_per_image. generalize (empty_per_image img_map).
  revert st. induction insts as [|inst insts IH]; intros st pi; cbn;
    [reflexivity|].
  destruct (dict_get (image_id inst) pi); [apply IH|].
  now rewrite IH.
Qed.

Lemma process_scene_modes a fs sc st :
  (forall st', process_scene (with_strict true a) fs sc st = Ok st' ->
               process_scene (with_strict false a) fs sc st = Ok st') /\
  (forall b st',
      process_scene (with_strict b a) fs sc st = Ok st' ->
      printed st <= printed st') /\
  (forall st',
      process_scene (with_strict false a) fs sc st = Ok st' ->
      printed st' <= printed st ->
      process_scene (with_strict true a) fs sc st = Ok st').
Proof.
  unfold process_scene. cbn [with_strict strict].
  destruct (scene_doc sc) as [data|].
  - pose proof (build_per_image_printed (build_img_map (images data))
                  (instances data) (count_scene st)) as Hp.
    destruct (build_per_image _ _ _) as [pi st0]. cbn [snd] in Hp.
    assert (Hp' : printed st0 = printed st) by (rewrite Hp; reflexivity).
    assert (Hmono : forall b item s s',
      process_image (with_strict b a) fs (scene_dir sc) pi item s = Ok s' ->
      printed s <= printed s').
    { intros b item s s' H.
      destruct (process_image_modes a fs (scene_dir sc) pi item s)
        as (_ & Hm & _).
      exact (Hm b s' H). }
    split; [|split].
    + apply for_each_impl. intros item s s' H.
      destruct (process_image_modes a fs (scene_dir sc) pi item s)
        as (Hi & _ & _).
      exact (Hi s' H).
    + intros b st' H. apply (for_each_mono printed) in H; [lia|apply Hmono].
    + intros st' H Hq.
      apply (for_each_quiet printed
               (process_image (with_strict true a) fs (scene_dir sc) pi)) in H;
        [exact H|apply Hmono| |lia].
      intros item s s' Hi Hle.
      destruct (process_image_modes a fs (scene_dir sc) pi item s)
        as (_ & _ & Hq').
      exact (Hq' s' Hi Hle).
  - split; [discriminate|]. split.
    + intros [|] st'; [discriminate|]. intros [= <-].
      unfold printed. cbn. rewrite length_app. lia.
    + intros st' [= <-]. unfold printed. cbn. rewrite length_app. cbn. lia.
Qed.

Lemma run_modes a fs scenes st :
  (forall st', run (with_strict true a) fs scenes st = Ok st' ->
               run (with_strict false a) fs scenes st = Ok st') /\
  (forall st',
      run (with_strict false a) fs scenes st = Ok st' ->
      stdout st' = stdout st ->
      run (with_strict true a) fs scenes st = Ok st').
Proof.
  unfold run. split.
  - apply for_each_impl. intros sc s s' H.
    destruct (process_scene_modes a fs sc s) as (Hi & _ & _).
    exact (Hi s' H).
  - intros st' H Hq.
    apply (for_each_quiet printed (process_scene (with_strict true a) fs)) in H;
      [exact H| | |unfold printed; rewrite Hq; lia].
    + intros sc s s' Hs.
      destruct (process_scene_modes a fs sc s) as (_ & Hm & _).
      exact (Hm false s' Hs).
    + intros sc s s' Hs Hle.
      destruct (process_scene_modes a fs sc s) as (_ & _ & Hq').
      exact (Hq' s' Hs Hle).
Qed.

(** The typed step is the step on JSON values at a [bbox] of numbers. *)
Lemma process_instance_json_numbers a fs src inst sl :
  process_instance_json a fs src inst (numbers (bbox inst)) sl
  = process_instance a fs src inst sl.
Proof.
  destruct sl as [st lc]. unfold process_instance_json, process_instance.
  destruct (label_from_instance inst (label_field a)) as [lab|]; [|reflexivity].
  destruct (dict_get lab (classes (register lab st))) as [cid|]; [|reflexivity].
  now destruct (bbox inst) as [[|x0 [|x1 [|x2 [|x3 [|x4 l]]]]]|].
Qed.

Lemma process_instance_json_modes a fs src inst raw st lc :
  (forall r,
      process_instance_json (with_strict true a) fs src inst raw (st, lc) = Ok r ->
      process_instance_json (with_strict false a) fs src inst raw (st, lc) = Ok r) /\
  (forall st' lc',
      process_instance_json (with_strict false a) fs src inst raw (st, lc)
      = Ok (st', lc') ->
      stdout st' = stdout st ->
      process_instance_json (with_strict true a) fs src inst raw (st, lc)
      = Ok (st', lc')) /\
  (forall e,
      process_instance_json (with_strict false a) fs src inst raw (st, lc)
      = Raise e ->
      process_instance_json (with_strict true a) fs src inst raw (st, lc)
      = Raise e).
Proof.
  unfold process_instance_json. cbn [label_field with_strict strict].
  destruct (label_from_instance inst (label_field a)) as [lab|]; [|auto].
  destruct (dict_get lab (classes (register lab st))) as [cid|]; [|auto].
  destruct raw as [[|]|[|x0 [|x1 [|x2 [|x3 [|x4 l]]]]]]; auto.
  destruct (resolve_size fs src lc) as [[[w h] lc1]|]; [auto|].
  split; [discriminate|]. split; [|discriminate].
  intros st' lc' [= <- <-] Hout. exfalso.
  destruct (register_frame lab st) as (_ & _ & _ & _ & _ & _ & Hreg).
  cbn in Hout. rewrite Hreg in Hout.
  apply (f_equal (@length _)) in Hout. rewrite length_app in Hout.
  cbn in Hout. lia.
Qed.




(** ** The worked examples of the specification *)

(** One scene [sceneA], one image of 100 x 50, one [car] at [10,10,60,40]
    (and one stray instance): the image is copied, the label file holds
    [0 0.35 0.5 0.5 0.6], the manifest is [0: car]. *)
Example end_to_end_scene_a :
  exists st yaml x y w h,
    main default_args scene_a_fs [scene_a_with_orphan] ∅ ∅ = Ok (st, yaml) /\
    out_images st !! "sceneA_beauty.0001.png" = Some "in/sceneA/beauty.0001.png" /\
    out_labels st !! "sceneA_beauty.0001.txt" = Some [(0, x, y, w, h)] /\
    (x == 0.35 /\ y == 0.5 /\ w == 0.5 /\ h == 0.6)%Q /\
    yaml = [(0, Some "car")] /\
    (st_scenes st, st_images st, st_instances st, st_skipped_instances st)
    = (1, 1, 1, 1).
Proof.
  eexists _, _, _, _, _, _.
  split; [vm_compute; reflexivity|].
  split; [vm_compute; reflexivity|].
  split; [vm_compute; reflexivity|].
  repeat split; vm_compute; reflexivity.
Qed.

Example class_subclass_both :
  label_from_instance
    {| image_id := None; class_ := Some "car"; subclass := Some "sedan";
       superclass := None; path := None; bbox := None |} ModeClassSubclass
  = Some "car/sedan".
Proof. reflexivity. Qed.

Example class_subclass_only_subclass :
  label_from_instance
    {| image_id := None; class_ := None; subclass := Some "sedan";
       superclass := None; path := None; bbox := None |} ModeClassSubclass
  = Some "sedan".
Proof. reflexivity. Qed.

Example resolve_prefers_beauty :
  resolve_image_path
    (fs_of [] (literal_glob ["a.png"; "beauty.1.jpg"; "beauty.2.png"]))
    "d" None [".png"; ".jpg"]
  = Some "d/beauty.2.png".
Proof. reflexivity. Qed.

Example resolve_falls_back_to_basename :
  resolve_image_path
    (fs_of ["d/z.png"] (literal_glob ["z.png"]))
    "d" (Some "sub/z.png") [".jpg"]
  = Some "d/z.png".
Proof. reflexivity. Qed.

(** * Further properties of the converter *)

(** ** [yolo_bbox]: every returned box lies in the unit square *)

Local Open Scope Q_scope.

Lemma clamp_negative_dim (x d : Q) : d < 0 -> clamp x (d - 1) == 0.
Proof.
  intros H. unfold clamp, py_max, py_min. repeat destruct Qlt_le_dec; lra.
Qed.

(** One axis, any coordinates: the lower edge is at or right of 0 and the
    upper edge at or left of 1. *)
Lemma axis_unit (lo hi d : Q) :
  ~ d == 0 ->
  let a := clamp lo (d - 1) in
  let e := extent a (clamp hi (d - 1)) in
  0 <= (a + e / 2) / d - e / d / 2 /\
  (a + e / 2) / d + e / d / 2 <= 1 /\
  0 <= e / d.
Proof.
  intros Hd. cbv zeta.
  destruct (Qlt_le_dec 0 d) as [Hpos|Hneg].
  - pose proof (clamp_range lo (d - 1)) as [Ha0 Ha1].
    pose proof (clamp_range hi (d - 1)) as [Hb0 Hb1].
    assert (HM : py_max 0 (d - 1) <= d)
      by (unfold py_max; destruct Qlt_le_dec; lra).
    set (a := clamp lo (d - 1)) in *. set (b := clamp hi (d - 1)) in *.
    assert (He : 0 <= extent a b /\ a + extent a b <= d).
    { unfold extent, py_max. destruct Qlt_le_dec; split; lra. }
    destruct He as [He0 He1]. set (e := extent a b) in *.
    clearbody e. clearbody a b.
    assert (E1 : (a + e / 2) / d - e / d / 2 == a / d) by (field; lra).
    assert (E2 : (a + e / 2) / d + e / d / 2 == (a + e) / d) by (field; lra).
    rewrite E1, E2. repeat split.
    + apply Qle_shift_div_l; lra.
    + apply Qle_shift_div_r; lra.
    + apply Qle_shift_div_l; lra.
  - assert (Hd' : d < 0) by lra.
    pose proof (clamp_negative_dim lo d Hd') as Ea.
    pose proof (extent_negative_dim lo hi d Hd') as Ee.
    set (a := clamp lo (d - 1)) in *.
    set (e := extent a (clamp hi (d - 1))) in *.
    clearbody e. clearbody a.
    assert (E1 : (a + e / 2) / d - e / d / 2 == 0)
      by (rewrite Ea, Ee; field; lra).
    assert (E2 : (a + e / 2) / d + e / d / 2 == 0)
      by (rewrite Ea, Ee; field; lra).
    assert (E3 : e / d == 0) by (rewrite Ee; field; lra).
    rewrite E1, E2, E3. repeat split; lra.
Qed.

(** Whatever the coordinates, with non-zero dimensions the normalized box
    lies inside the unit square: its left and top edges are at least 0, its
    right and bottom edges at most 1, and its sizes are not negative. *)
Theorem yolo_bbox_in_unit_square (xmin ymin xmax ymax w h : Q) :
  ~ w == 0 -> ~ h == 0 ->
  exists x y nw nh,
    yolo_bbox xmin ymin xmax ymax w h = Ok (x, y, nw, nh) /\
    0 <= x - nw / 2 /\ x + nw / 2 <= 1 /\ 0 <= nw /\
    0 <= y - nh / 2 /\ y + nh / 2 <= 1 /\ 0 <= nh.
Proof.
  intros Hw Hh. rewrite yolo_bbox_ok by assumption.
  eexists _, _, _, _. split; [reflexivity|].
  destruct (axis_unit xmin xmax w Hw) as (Hx0 & Hx1 & Hxe).
  destruct (axis_unit ymin ymax h Hh) as (Hy0 & Hy1 & Hye).
  repeat split; assumption.
Qed.

Lemma yolo_bbox_in_unit_square_witness :
  exists x y nw nh,
    yolo_bbox (-5) 10 300 40 100 50 = Ok (x, y, nw, nh) /\
    0 <= x - nw / 2 /\ x + nw / 2 <= 1 /\ 0 <= nw /\
    0 <= y - nh / 2 /\ y + nh / 2 <= 1 /\ 0 <= nh.
Proof.
  apply (yolo_bbox_in_unit_square (-5) 10 300 40 100 50); discriminate.
Defined.

Lemma degenerate_yolo_iff (xmin ymin xmax ymax w h : Q) :
  ~ w == 0 -> ~ h == 0 ->
  degenerate (extent (clamp xmin (w - 1)) (clamp xmax (w - 1)) / w)
             (extent (clamp ymin (h - 1)) (clamp ymax (h - 1)) / h) = true <->
  extent (clamp xmin (w - 1)) (clamp xmax (w - 1)) <= 0 \/
  extent (clamp ymin (h - 1)) (clamp ymax (h - 1)) <= 0.
Proof.
  intros Hw Hh. rewrite degenerate_true_iff.
  rewrite (div_nonpos_iff _ w Hw (extent_nonneg _ _)
             (extent_negative_dim xmin xmax w)).
  rewrite (div_nonpos_iff _ h Hh (extent_nonneg _ _)
             (extent_negative_dim ymin ymax h)).
  reflexivity.
Qed.

(** A box given with its corners in the wrong order, or with no width or
    height, is degenerate: clamping never restores the order. *)
Theorem inverted_box_is_degenerate (xmin ymin xmax ymax w h : Q) :
  ~ w == 0 -> ~ h == 0 ->
  xmax <= xmin \/ ymax <= ymin ->
  exists x y nw nh,
    yolo_bbox xmin ymin xmax ymax w h = Ok (x, y, nw, nh) /\
    degenerate nw nh = true.
Proof.
  intros Hw Hh Hinv. rewrite yolo_bbox_ok by assumption.
  eexists _, _, _, _. split; [reflexivity|].
  apply degenerate_yolo_iff; [assumption..|].
  destruct Hinv as [Hx|Hy]; [left|right].
  - pose proof (clamp_mono xmax xmin (w - 1) Hx) as Hc.
    unfold extent, py_max. destruct Qlt_le_dec; lra.
  - pose proof (clamp_mono ymax ymin (h - 1) Hy) as Hc.
    unfold extent, py_max. destruct Qlt_le_dec; lra.
Qed.

Lemma inverted_box_is_degenerate_witness :
  exists x y nw nh,
    yolo_bbox 60 10 10 40 100 50 = Ok (x, y, nw, nh) /\
    degenerate nw nh = true.
Proof.
  apply (inverted_box_is_degenerate 60 10 10 40 100 50);
    [discriminate..|left; discriminate].
Defined.

Local Close Scope Q_scope.

(** ** Labels in mode [path] *)

Lemma split_slash_nonempty (s : string) : split_slash s <> [].
Proof.
  induction s as [|c s IH]; cbn; [discriminate|].
  destruct (decide (c = slash)); [discriminate|].
  destruct (split_slash s); [contradiction|discriminate].
Qed.

Lemma last_app_nonempty {A} (l1 l2 : list A) (d : A) :
  l2 <> [] -> List.last (l1 ++ l2) d = List.last l2 d.
Proof.
  intros Hne. induction l1 as [|x l1 IH]; [reflexivity|].
  cbn [app]. destruct (l1 ++ l2) as [|y r] eqn:E.
  - destruct l1; [cbn in E; congruence|discriminate].
  - cbn [List.last]. exact IH.
Qed.

Lemma split_slash_join (a b : string) :
  split_slash (a +:+ String slash b) = split_slash a ++ split_slash b.
Proof.
  induction a as [|c a IH].
  - change ("" +:+ String slash b) with (String slash b).
    cbn [split_slash]. rewrite decide_True by reflexivity. reflexivity.
  - change (String c a +:+ String slash b)
      with (String c (a +:+ String slash b)).
    cbn [split_slash]. destruct (decide (c = slash)).
    + now rewrite IH.
    + rewrite IH. destruct (split_slash a) as [|seg segs] eqn:E;
        [now apply split_slash_nonempty in E|reflexivity].
Qed.

Lemma split_slash_plain (s : string) : has_slash s = false -> split_slash s = [s].
Proof.
  induction s as [|c s IH]; cbn; [reflexivity|].
  intros H. apply orb_false_iff in H as [Hc Hs].
  apply bool_decide_eq_false in Hc. rewrite decide_False by assumption.
  now rewrite IH.
Qed.

Lemma split_slash_segments (s : string) :
  Forall (fun seg => has_slash seg = false) (split_slash s).
Proof.
  induction s as [|c s IH]; cbn.
  - constructor; [reflexivity|constructor].
  - destruct (decide (c = slash)) as [Hc|Hc].
    + constructor; [reflexivity|exact IH].
    + destruct (split_slash s) as [|seg segs]; [repeat constructor|].
      * cbn. now rewrite bool_decide_false.
      * inversion IH as [|? ? Hseg Hsegs]; subst.
        constructor; [|assumption]. cbn. now rewrite bool_decide_false.
Qed.

Lemma last_in_or_default {A} (P : A -> Prop) (l : list A) (d : A) :
  Forall P l -> P d -> P (List.last l d).
Proof.
  intros Hall Hd. induction Hall as [|x l Hx Hl IH]; [exact Hd|].
  cbn. destruct l; [exact Hx|exact IH].
Qed.

(** In mode [path] the label is what follows the last [/] of the path: it
    contains no [/], it is the path itself when that has no [/], and leading
    directories do not change it (so a path that ends in [/] gives the empty
    label). *)
Theorem path_label_is_last_segment (inst : instance) (p : string) :
  path inst = Some p ->
  exists lab,
    label_from_instance inst ModePath = Some lab /\
    has_slash lab = false /\
    (has_slash p = false -> lab = p) /\
    (forall d q, p = d +:+ String slash q -> has_slash q = false -> lab = q).
Proof.
  intros Hp. exists (last_segment p). unfold label_from_instance. rewrite Hp.
  split; [reflexivity|]. split; [|split].
  - unfold last_segment.
    apply (last_in_or_default (fun seg => has_slash seg = false));
      [apply split_slash_segments|reflexivity].
  - intros Hplain. unfold last_segment. now rewrite split_slash_plain.
  - intros d q -> Hq. unfold last_segment.
    rewrite split_slash_join, last_app_nonempty by apply split_slash_nonempty.
    now rewrite split_slash_plain.
Qed.

Lemma path_label_is_last_segment_witness :
  exists lab,
    label_from_instance
      {| image_id := None; class_ := None; subclass := None;
         superclass := None; path := Some "props/chair/leg"; bbox := None |}
      ModePath = Some lab /\
    lab = "leg".
Proof.
  destruct (path_label_is_last_segment
              {| image_id := None; class_ := None; subclass := None;
                 superclass := None; path := Some "props/chair/leg";
                 bbox := None |} "props/chair/leg" eq_refl)
    as (lab & Hlab & _ & _ & Hjoin).
  exists lab. split; [exact Hlab|].
  apply (Hjoin "props/chair" "leg"); reflexivity.
Defined.

(** ** The resolution order *)

Lemma path_name_join (d n : string) :
  proper_name n -> path_name (d +:+ "/" +:+ n) = n.
Proof.
  intros (Hs & He & Hd).
  change (d +:+ "/" +:+ n) with (d +:+ String slash n).
  unfold path_name, path_parts.
  rewrite split_slash_join, (split_slash_plain n Hs), filter_app.
  rewrite (filter_cons_True _ n []) by (split; assumption).
  rewrite filter_nil. now apply last_app_nonempty.
Qed.

Lemma path_name_proper (n : string) : proper_name n -> path_name n = n.
Proof.
  intros (Hs & He & Hd). unfold path_name, path_parts.
  rewrite (split_slash_plain n Hs).
  rewrite (filter_cons_True _ n []) by (split; assumption).
  now rewrite filter_nil.
Qed.

Lemma proper_name_relative (n : string) :
  proper_name n -> String.prefix "/" n = false.
Proof.
  intros (Hs & _ & _). destruct n as [|c n]; [reflexivity|].
  destruct (String.prefix "/" (String c n)) eqn:E; [|reflexivity].
  apply String.prefix_correct in E. cbn in E.
  assert (Hc : c = slash) by (destruct n; now injection E).
  subst c. cbn in Hs. rewrite bool_decide_eq_true_2 in Hs by reflexivity.
  discriminate Hs.
Qed.

(** C9: the resolver is the three-step, first-match-wins search: the
    declared file name under the scene directory, then its final component
    under the scene directory, then, extension by extension in the given
    order, among what [glob] answers for [*ext], the first file whose name
    begins with [beauty.] else the first file; absent when no step matches.
    The path of a relative name is the scene directory, [/] and the name (an
    absolute name stands for itself); the final component of [d/n] is [n];
    the matches are those of the pattern [*ext]; and the third step is taken
    whenever the first two find nothing. *)
Theorem resolve_image_path_order (fs : filesystem) (dir : string)
    (fname : option string) (exts : list string) :
  resolve_image_path fs dir fname exts = resolve_spec fs dir fname exts /\
  (forall f, String.prefix "/" f = false ->
             path_join dir f = dir +:+ "/" +:+ f) /\
  (forall f, String.prefix "/" f = true -> path_join dir f = f) /\
  (forall d n, proper_name n -> path_name (d +:+ "/" +:+ n) = n) /\
  (forall n, proper_name n -> path_name n = n) /\
  (forall ext, glob_ext fs dir ext = fs_glob fs dir ("*" +:+ ext)) /\
  (forall f, declared fname = Some f -> String.prefix "/" f = false ->
             fs_exists fs (dir +:+ "/" +:+ f) = true ->
             resolve_image_path fs dir fname exts = Some (dir +:+ "/" +:+ f)) /\
  (forall f d n, declared fname = Some f -> f = d +:+ "/" +:+ n ->
                 proper_name n ->
                 fs_exists fs (path_join dir f) = false ->
                 fs_exists fs (dir +:+ "/" +:+ n) = true ->
                 resolve_image_path fs dir fname exts
                 = Some (dir +:+ "/" +:+ n)) /\
  (match declared fname with
   | Some f => fs_exists fs (path_join dir f) = false /\
               fs_exists fs (path_join dir (path_name f)) = false
   | None => True
   end ->
   resolve_image_path fs dir fname exts
   = first_some
       (map (fun ext =>
               let matches := fs_glob fs dir ("*" +:+ ext) in
               match find (fun c => String.prefix "beauty." (path_name c))
                          matches with
               | Some c => Some c
               | None => head matches
               end) exts)).
Proof.
  assert (Hrel : forall f, String.prefix "/" f = false ->
                           path_join dir f = dir +:+ "/" +:+ f)
    by (intros f Hf; unfold path_join; now rewrite Hf).
  assert (Hspec : resolve_image_path fs dir fname exts
                  = resolve_spec fs dir fname exts).
  { unfold resolve_image_path, resolve_spec.
    rewrite search_exts_first_some.
    set (ext_search := first_some (map (pick_for_ext fs dir) exts)).
    destruct fname as [f|]; [|cbn; now destruct ext_search].
    cbn [truthy declared].
    destruct (bool_decide (f = "")); cbn; [now destruct ext_search|].
    unfold try_path.
    destruct (fs_exists fs (path_join dir f)); cbn; [reflexivity|].
    destruct (fs_exists fs (path_join dir (path_name f))); cbn;
      [reflexivity|now destruct ext_search]. }
  split; [exact Hspec|]. split; [exact Hrel|].
  split; [intros f Hf; unfold path_join; now rewrite Hf|].
  split; [intros d n; apply path_name_join|].
  split; [apply path_name_proper|].
  split; [reflexivity|].
  split; [|split].
  - intros f Hd Hf Hex. rewrite Hspec. unfold resolve_spec. rewrite Hd.
    unfold try_path. rewrite (Hrel f Hf), Hex. reflexivity.
  - intros f d n Hd -> Hn Hno Hex. rewrite Hspec. unfold resolve_spec.
    rewrite Hd. unfold try_path. rewrite Hno.
    rewrite (path_name_join d n Hn).
    rewrite (Hrel n (proper_name_relative n Hn)), Hex. reflexivity.
  - intros Hnot. rewrite Hspec. unfold resolve_spec, try_path.
    change (map (pick_for_ext fs dir) exts)
      with (map (fun ext =>
                   let matches := fs_glob fs dir ("*" +:+ ext) in
                   match find (fun c => String.prefix "beauty." (path_name c))
                              matches with
                   | Some c => Some c
                   | None => head matches
                   end) exts).
    destruct (declared fname) as [f|].
    + destruct Hnot as [-> ->]. cbn [first_some]. now destruct (first_some _).
    + cbn [first_some]. now destruct (first_some _).
Qed.

Lemma resolve_image_path_order_witness :
  resolve_image_path (fs_of ["d/z.png"] (literal_glob ["z.png"])) "d"
    (Some "sub/z.png") [".jpg"]
  = Some ("d" +:+ "/" +:+ "z.png").
Proof.
  destruct (resolve_image_path_order
              (fs_of ["d/z.png"] (literal_glob ["z.png"])) "d"
              (Some "sub/z.png") [".jpg"])
    as (_ & _ & _ & _ & _ & _ & _ & Hsecond & _).
  apply (Hsecond "sub/z.png" "sub" "z.png"); try reflexivity.
  repeat split; discriminate.
Defined.

(** ** What the image resolver can return *)

Lemma search_exts_sound (fs : filesystem) (dir : string) (exts : list string)
    (p : string) :
  search_exts fs dir exts = Some p ->
  exists ext, ext ∈ exts /\ p ∈ glob_ext fs dir ext.
Proof.
  induction exts as [|ext exts IH]; cbn [search_exts]; [discriminate|].
  set (cand := glob_ext fs dir ext).
  set (P := fun c => starts_with "beauty." (path_name c)).
  destruct (List.filter P cand) as [|b bs] eqn:Eb.
  - destruct cand as [|c cs] eqn:Ec.
    + intros H. destruct (IH H) as (e & He & Hp).
      exists e. split; [apply elem_of_cons; now right|exact Hp].
    + intros [= <-]. exists ext. split; [apply elem_of_cons; now left|].
      fold cand. rewrite Ec. apply elem_of_cons. now left.
  - intros [= <-]. exists ext. split; [apply elem_of_cons; now left|].
    assert (Hb : In b (List.filter P cand)) by (rewrite Eb; now left).
    apply filter_In in Hb as [Hb _]. now apply list_elem_of_In.
Qed.

Lemma search_exts_none (fs : filesystem) (dir : string) (exts : list string) :
  search_exts fs dir exts = None <->
  forall ext, ext ∈ exts -> glob_ext fs dir ext = [].
Proof.
  induction exts as [|ext exts IH]; cbn [search_exts].
  - split; [|reflexivity]. intros _ e He. now apply elem_of_nil in He.
  - set (cand := glob_ext fs dir ext).
    set (P := fun c => starts_with "beauty." (path_name c)).
    destruct (List.filter P cand) as [|b bs] eqn:Eb.
    + destruct cand as [|c cs] eqn:Ec.
      * rewrite IH. split.
        -- intros H e He. apply elem_of_cons in He as [->|He];
             [exact Ec|now apply H].
        -- intros H e He. apply H. apply elem_of_cons. now right.
      * split; [discriminate|]. intros H.
        specialize (H ext). fold cand in H. rewrite Ec in H.
        discriminate H. apply elem_of_cons. now left.
    + split; [discriminate|]. intros H.
      specialize (H ext). fold cand in H.
      rewrite H in Eb by (apply elem_of_cons; now left). discriminate.
Qed.

(** A resolved path is either the declared file name (or its last
    component) under the scene directory, found to exist, or one of the paths
    [glob] answers for [*ext] with [ext] an allowed extension. *)
Theorem resolved_path_origin (fs : filesystem) (dir : string)
    (fname : option string) (exts : list string) (p : string) :
  resolve_image_path fs dir fname exts = Some p ->
  (exists f, declared fname = Some f /\ fs_exists fs p = true /\
             (p = path_join dir f \/ p = path_join dir (path_name f))) \/
  (exists ext, ext ∈ exts /\ p ∈ fs_glob fs dir ("*" +:+ ext)).
Proof.
  assert (Hsearch : search_exts fs dir exts = Some p ->
    exists ext, ext ∈ exts /\ p ∈ fs_glob fs dir ("*" +:+ ext))
    by apply search_exts_sound.
  unfold resolve_image_path. destruct fname as [f|]; [|now right; apply Hsearch].
  destruct (truthy (Some f)) eqn:Ht; [|now right; apply Hsearch].
  apply truthy_declared in Ht.
  destruct (fs_exists fs (path_join dir f)) eqn:E1.
  { intros [= <-]. left. exists f. auto. }
  destruct (fs_exists fs (path_join dir (path_name f))) eqn:E2.
  { intros [= <-]. left. exists f. auto. }
  intros H. right. now apply Hsearch.
Qed.

Lemma resolved_path_origin_witness :
  exists ext,
    ext ∈ [".png"; ".jpg"] /\
    "d/beauty.2.png"
    ∈ fs_glob (fs_of [] (literal_glob ["a.png"; "beauty.1.jpg"; "beauty.2.png"]))
              "d" ("*" +:+ ext).
Proof.
  destruct (resolved_path_origin
              (fs_of [] (literal_glob ["a.png"; "beauty.1.jpg"; "beauty.2.png"]))
              "d" None [".png"; ".jpg"] "d/beauty.2.png" eq_refl)
    as [(f & Hf & _)|H]; [discriminate Hf|exact H].
Defined.

(** No image is resolved exactly when the declared name (if any) is found
    neither as given nor by its last component, and [glob] answers nothing
    for [*ext], whatever the allowed extension [ext]. *)
Theorem unresolved_iff_nothing_matches (fs : filesystem) (dir : string)
    (fname : option string) (exts : list string) :
  resolve_image_path fs dir fname exts = None <->
  (forall f, declared fname = Some f ->
             fs_exists fs (path_join dir f) = false /\
             fs_exists fs (path_join dir (path_name f)) = false) /\
  (forall ext, ext ∈ exts -> fs_glob fs dir ("*" +:+ ext) = []).
Proof.
  assert (Hnone : search_exts fs dir exts = None <->
    forall ext, ext ∈ exts -> fs_glob fs dir ("*" +:+ ext) = [])
    by apply search_exts_none.
  unfold resolve_image_path. destruct fname as [f|].
  2:{ rewrite Hnone. split; [intros H; split; [discriminate|exact H]|now intros [_ H]]. }
  destruct (truthy (Some f)) eqn:Ht.
  - pose proof (proj1 (truthy_declared f) Ht) as Hd. rewrite Hd.
    destruct (fs_exists fs (path_join dir f)) eqn:E1.
    { split; [discriminate|]. intros [H _]. destruct (H f eq_refl). congruence. }
    destruct (fs_exists fs (path_join dir (path_name f))) eqn:E2.
    { split; [discriminate|]. intros [H _]. destruct (H f eq_refl). congruence. }
    rewrite Hnone. split.
    + intros H. split; [|exact H]. intros f' [= <-]. now split.
    + now intros [_ H].
  - assert (Hd : declared (Some f) = None).
    { cbn in Ht |- *. destruct (bool_decide (f = "")); [reflexivity|discriminate]. }
    rewrite Hd, Hnone.
    split; [intros H; split; [discriminate|exact H]|now intros [_ H]].
Qed.

Lemma unresolved_iff_nothing_matches_witness :
  resolve_image_path (fs_of [] (literal_glob ["notes.txt"])) "d"
    (Some "beauty.png") [".png"; ".jpg"] = None.
Proof.
  apply unresolved_iff_nothing_matches. split.
  - intros f [= <-]. split; reflexivity.
  - intros ext He.
    repeat (apply elem_of_cons in He as [->|He]; [reflexivity|]).
    now apply elem_of_nil in He.
Defined.

(** ** The image map *)

Lemma dict_set_keys_nodup {K V} `{EqDecision K} (k : K) (v : V) (d : dict K V) :
  NoDup (map fst d) -> NoDup (map fst (dict_set k v d)).
Proof.
  intros Hnd. destruct (dict_get k d) as [v0|] eqn:E.
  - rewrite dict_keys_set_present; [assumption|].
    apply dict_mem_true. unfold dict_mem. now rewrite E.
  - rewrite dict_set_fresh, map_app by assumption. cbn.
    apply NoDup_app. split; [assumption|]. split; [|apply NoDup_singleton].
    intros x Hx Hx'. apply list_elem_of_singleton in Hx'. subst x.
    now apply dict_get_None in E.
Qed.

Lemma find_over_app {A} (P : A -> bool) (l1 l2 : list A) :
  find P (l1 ++ l2)
  = match find P l1 with Some x => Some x | None => find P l2 end.
Proof.
  induction l1 as [|x l1 IH]; cbn; [reflexivity|].
  destruct (P x); [reflexivity|exact IH].
Qed.

Lemma build_img_map_from (ims : list image_entry) (d : dict (option Z) meta)
    (k : option Z) :
  dict_get k
    (fold_left
       (fun d im =>
          dict_set (im_id im)
            {| file_name := im_file_name im; width := im_width im;
               height := im_height im |} d) ims d)
  = match last_entry k ims with
    | Some im => Some (meta_of im)
    | None => dict_get k d
    end.
Proof.
  revert d. induction ims as [|im ims IH]; intros d; cbn [fold_left].
  - reflexivity.
  - rewrite IH. unfold last_entry. cbn [rev]. rewrite find_over_app.
    destruct (find _ (rev ims)) as [im'|]; [reflexivity|].
    cbn [find]. destruct (decide (im_id im = k)) as [Hk|Hk].
    + rewrite bool_decide_true by assumption. rewrite <- Hk.
      now rewrite dict_get_set_eq.
    + rewrite bool_decide_false by assumption. now rewrite dict_get_set_ne.
Qed.

Lemma build_img_map_nodup (ims : list image_entry) :
  NoDup (map fst (build_img_map ims)).
Proof.
  unfold build_img_map.
  assert (H : forall d : dict (option Z) meta,
    NoDup (map fst d) ->
    NoDup (map fst
      (fold_left
         (fun d im =>
            dict_set (im_id im)
              {| file_name := im_file_name im; width := im_width im;
                 height := im_height im |} d) ims d))).
  { induction ims as [|im ims IH]; intros d Hd; cbn [fold_left]; [exact Hd|].
    apply IH. now apply dict_set_keys_nodup. }
  apply H. apply NoDup_nil_2.
Qed.

(** The image map has one item per distinct image id; when an id occurs
    more than once in [images], the item carries the file name and size of
    the last entry with that id. *)
Theorem image_map_keeps_last_entry (ims : list image_entry) (k : option Z) :
  NoDup (map fst (build_img_map ims)) /\
  (k ∈ map fst (build_img_map ims) <-> k ∈ map im_id ims) /\
  dict_get k (build_img_map ims) = meta_of <$> last_entry k ims.
Proof.
  split; [apply build_img_map_nodup|]. split; [apply build_img_map_keys|].
  unfold build_img_map. rewrite build_img_map_from.
  now destruct (last_entry k ims).
Qed.

(** ** What one image and one scene do to the state *)

(** A pass of the image loop that returns either printed the missing-image
    warning, or ran the instance loop over the attached instances and wrote
    the label file. *)
Lemma process_image_effect a fs dir per_image iid m st st' :
  process_image a fs dir per_image (iid, m) st = Ok st' ->
  (strict a = false /\
   st' = warn (WarnMissingImage iid (file_name m) dir) st) \/
  (exists src insts st1 lc1,
      resolve_image_path fs dir (file_name m) (image_extensions a) = Some src /\
      fs_exists fs src = true /\
      dict_get iid per_image = Some insts /\
      for_each (process_instance a fs src) insts
        (copy_image src (path_name dir +:+ "_" +:+ path_name src) st,
         {| lines := []; cur_w := width m; cur_h := height m |})
      = Ok (st1, lc1) /\
      st' = write_label
              (path_stem (path_name dir +:+ "_" +:+ path_name src) +:+ ".txt")
              (lines lc1) st1).
Proof.
  unfold process_image.
  assert (Hmiss :
    (if strict a then Raise FileNotFoundError
     else Ok (warn (WarnMissingImage iid (file_name m) dir) st)) = Ok st' ->
    strict a = false /\ st' = warn (WarnMissingImage iid (file_name m) dir) st).
  { destruct (strict a); [discriminate|]. intros [= <-]. now split. }
  destruct (resolve_image_path fs dir (file_name m) (image_extensions a))
    as [src|] eqn:Hres; [|intros H; left; now apply Hmiss].
  destruct (fs_exists fs src) eqn:Hex; cbn [negb];
    [|intros H; left; now apply Hmiss].
  destruct (dict_get iid per_image) as [insts|] eqn:Hget; [|discriminate].
  destruct (for_each _ insts _) as [[st1 lc1]|e] eqn:Hloop; [|discriminate].
  cbn [bind]. intros [= <-]. right. now exists src, insts, st1, lc1.
Qed.

Lemma for_each_count {A S} (nu : S -> nat) (c : A -> nat)
    (body : A -> S -> result S) (xs : list A) :
  (forall x s s', body x s = Ok s' -> nu s' = nu s + c x) ->
  forall s s', for_each body xs s = Ok s' -> nu s' = nu s + sum_list (map c xs).
Proof.
  intros Hbody. induction xs as [|x xs IH]; intros s s'; cbn [for_each].
  - intros [= <-]. cbn. lia.
  - destruct (body x s) as [s1|e] eqn:E; cbn [bind]; [|discriminate].
    intros Hrest. apply IH in Hrest. apply Hbody in E. cbn. lia.
Qed.

Lemma build_per_image_frame img_map insts st :
  let st' := snd (build_per_image img_map insts st) in
  st_images st' = st_images st /\ st_instances st' = st_instances st /\
  st_scenes st' = st_scenes st /\
  out_images st' = out_images st /\ out_labels st' = out_labels st /\
  st_skipped_instances st <= st_skipped_instances st'.
Proof.
  unfold build_per_image. generalize (empty_per_image img_map).
  revert st. induction insts as [|inst insts IH]; intros st pi; cbn.
  - repeat split. lia.
  - destruct (dict_get (image_id inst) pi); [apply IH|].
    destruct (IH (count_skipped st) pi) as (H1 & H2 & H3 & H4 & H5 & H6).
    cbn in *. rewrite H1, H2, H3, H4, H5. repeat split. lia.
Qed.

Lemma process_image_scenes a fs dir per_image item st st' :
  process_image a fs dir per_image item st = Ok st' ->
  st_scenes st' = st_scenes st.
Proof.
  destruct item as [iid m]. intros H.
  apply process_image_effect in H
    as [[_ ->]|(src & insts & st1 & lc1 & _ & _ & _ & Hloop & ->)];
    [reflexivity|].
  apply instance_loop_frame in Hloop as (_ & _ & Hs & _ & _).
  cbn. rewrite Hs. unfold copy_image. now destruct (_ !! _).
Qed.

Lemma process_scene_scenes a fs sc st st' :
  process_scene a fs sc st = Ok st' -> st_scenes st' = S (st_scenes st).
Proof.
  unfold process_scene. destruct (scene_doc sc) as [data|].
  - pose proof (build_per_image_frame (build_img_map (images data))
                  (instances data) (count_scene st)) as Hf.
    destruct (build_per_image _ _ _) as [pi st0]. cbn in Hf.
    destruct Hf as (_ & _ & Hs & _). intros Hrun.
    apply (for_each_count st_scenes (fun _ => 0)) in Hrun.
    + rewrite Hrun, Hs.
      assert (Hz : forall l : dict (option Z) meta,
                 sum_list (map (fun _ => 0) l) = 0)
        by (induction l; cbn; auto).
      rewrite Hz. lia.
    + intros item s s' Hi. apply process_image_scenes in Hi. lia.
  - destruct (strict a); [discriminate|]. now intros [= <-].
Qed.

(** A run that ends has counted every discovered scene once, whether or
    not its document could be read. *)
Theorem every_scene_is_counted (a : args) (fs : filesystem)
    (scenes : list scene) (st st' : state) :
  run a fs scenes st = Ok st' ->
  st_scenes st' = st_scenes st + length scenes.
Proof.
  unfold run. intros Hrun.
  apply (for_each_count st_scenes (fun _ => 1)) in Hrun.
  - rewrite Hrun. f_equal. clear. induction scenes; cbn; auto.
  - intros sc s s' Hs. apply process_scene_scenes in Hs. lia.
Qed.

Lemma every_scene_is_counted_witness :
  exists st',
    run default_args scene_a_fs [broken_scene; scene_a_no_box]
      (initial_state ∅ ∅) = Ok st' /\
    st_scenes st' = 0 + 2.
Proof.
  eexists. split; [vm_compute; reflexivity|].
  apply (every_scene_is_counted default_args scene_a_fs
           [broken_scene; scene_a_no_box] (initial_state ∅ ∅)).
  vm_compute. reflexivity.
Defined.

(** ** The output tree only grows *)

Lemma out_persists_refl s : out_persists s s.
Proof. split; auto. Qed.

Lemma out_persists_trans s1 s2 s3 :
  out_persists s1 s2 -> out_persists s2 s3 -> out_persists s1 s3.
Proof. intros [H1 H2] [H3 H4]. split; auto. Qed.

Lemma out_persists_same s s' :
  out_images s' = out_images s -> out_labels s' = out_labels s ->
  out_persists s s'.
Proof. intros Hi Hl. unfold out_persists. rewrite Hi, Hl. auto. Qed.

Lemma copy_image_persists src out st : out_persists st (copy_image src out st).
Proof.
  unfold copy_image. destruct (out_images st !! out) as [v0|] eqn:E;
    [apply out_persists_refl|].
  split; cbn; [|auto]. intros k v Hk.
  rewrite lookup_insert_ne; [exact Hk|]. intros ->. congruence.
Qed.

Lemma write_label_persists lbl ls st : out_persists st (write_label lbl ls st).
Proof.
  split; cbn; [auto|]. intros k Hk.
  destruct (decide (lbl = k)) as [->|Hne].
  - rewrite lookup_insert_eq. eauto.
  - now rewrite lookup_insert_ne.
Qed.

Lemma process_image_persists a fs dir per_image item st st' :
  process_image a fs dir per_image item st = Ok st' -> out_persists st st'.
Proof.
  destruct item as [iid m]. intros H.
  apply process_image_effect in H
    as [[_ ->]|(src & insts & st1 & lc1 & _ & _ & _ & Hloop & ->)].
  - now apply out_persists_same.
  - apply instance_loop_frame in Hloop as (_ & _ & _ & Hi & Hl).
    apply (out_persists_trans _ (copy_image src
             (path_name dir +:+ "_" +:+ path_name src) st));
      [apply copy_image_persists|].
    apply (out_persists_trans _ st1);
      [now apply out_persists_same|apply write_label_persists].
Qed.

Lemma process_scene_persists a fs sc st st' :
  process_scene a fs sc st = Ok st' -> out_persists st st'.
Proof.
  unfold process_scene. destruct (scene_doc sc) as [data|].
  - pose proof (build_per_image_frame (build_img_map (images data))
                  (instances data) (count_scene st)) as Hf.
    destruct (build_per_image _ _ _) as [pi st0]. cbn in Hf.
    destruct Hf as (_ & _ & _ & Hi & Hl & _). intros Hrun.
    apply (out_persists_trans _ st0); [now apply out_persists_same|].
    revert Hrun. apply for_each_preserves.
    + apply out_persists_refl.
    + apply out_persists_trans.
    + intros item s s' _. apply process_image_persists.
  - destruct (strict a); [discriminate|]. intros [= <-].
    now apply out_persists_same.
Qed.

(** A run never replaces an image that is already in the output directory
    and never removes a label file; only the content of label files can
    change. *)
Theorem output_tree_only_grows (a : args) (fs : filesystem)
    (scenes : list scene) (st st' : state) :
  run a fs scenes st = Ok st' ->
  (forall k v, out_images st !! k = Some v -> out_images st' !! k = Some v) /\
  (forall k, is_Some (out_labels st !! k) -> is_Some (out_labels st' !! k)).
Proof.
  unfold run. apply (for_each_preserves out_persists).
  - apply out_persists_refl.
  - apply out_persists_trans.
  - intros sc s s' _. apply process_scene_persists.
Qed.

Lemma output_tree_only_grows_witness :
  exists st',
    run default_args twin_fs [twin_second]
      (initial_state {["scene1_beauty.png" := "older copy"]} ∅) = Ok st' /\
    out_images st' !! "scene1_beauty.png" = Some "older copy".
Proof.
  eexists. split; [vm_compute; reflexivity|].
  apply (output_tree_only_grows default_args twin_fs [twin_second]
           (initial_state {["scene1_beauty.png" := "older copy"]} ∅));
    vm_compute; reflexivity.
Defined.

(** ** Every instance is written, skipped, or announced *)

Lemma for_each_count_le {A S} (nu : S -> nat) (c : A -> nat)
    (body : A -> S -> result S) (xs : list A) :
  (forall x s s', body x s = Ok s' -> nu s' <= nu s + c x) ->
  forall s s', for_each body xs s = Ok s' -> nu s' <= nu s + sum_list (map c xs).
Proof.
  intros Hbody. induction xs as [|x xs IH]; intros s s'; cbn [for_each].
  - intros [= <-]. cbn. lia.
  - destruct (body x s) as [s1|e] eqn:E; cbn [bind]; [|discriminate].
    intros Hrest. apply IH in Hrest. apply Hbody in E. cbn. lia.
Qed.

Lemma for_each_quiet_count {A S} (mu nu : S -> nat) (c : A -> nat)
    (body : A -> S -> result S) (xs : list A) :
  (forall x s s', body x s = Ok s' -> mu s <= mu s') ->
  (forall x s s', body x s = Ok s' -> mu s' <= mu s -> nu s' = nu s + c x) ->
  forall s s',
    for_each body xs s = Ok s' -> mu s' <= mu s ->
    nu s' = nu s + sum_list (map c xs).
Proof.
  intros Hmono Hquiet. induction xs as [|x xs IH]; intros s s'; cbn [for_each].
  - intros [= <-] _. cbn. lia.
  - destruct (body x s) as [s1|e] eqn:E; cbn [bind]; [|discriminate].
    intros Hrest Hmu.
    pose proof (for_each_mono mu body xs Hmono s1 s' Hrest) as Htail.
    pose proof (Hmono x s s1 E) as Hhead.
    rewrite (IH s1 s' Hrest) by lia.
    rewrite (Hquiet x s s1 E) by lia. cbn. lia.
Qed.

(** One pass of the instance loop: a skip, a line, or a size warning. *)
Lemma process_instance_accounts a fs src inst st lc st' lc' :
  process_instance a fs src inst (st, lc) = Ok (st', lc') ->
  st_skipped_instances st' + length (lines lc') + printed st'
  = st_skipped_instances st + length (lines lc) + printed st + 1.
Proof.
  intros Hrun. pose proof (process_instance_outcome a fs src inst st lc) as Hout.
  rewrite Hrun in Hout.
  inversion Hout as
    [Hl
    |lab Hl Hb
    |lab x0 y0 x1 y1 Hl Hb Hs Hres
    |lab x0 y0 x1 y1 w h lc1 e Hl Hb Hs Hy
    |lab x0 y0 x1 y1 w h lc1 x y bw bh Hl Hb Hs Hy Hd
    |lab cid x0 y0 x1 y1 w h lc1 x y bw bh Hl Hc Hb Hs Hy Hd]; subst.
  - unfold printed. cbn. lia.
  - destruct (register_frame lab st) as (_ & _ & Hsk & _ & _ & _ & Hout').
    unfold printed. cbn. rewrite Hsk, Hout'. lia.
  - destruct (strict a); [discriminate|]. injection Hres as <- <-.
    destruct (register_frame lab st) as (_ & _ & Hsk & _ & _ & _ & Hout').
    unfold printed. cbn. rewrite Hsk, Hout', length_app. cbn. lia.
  - destruct (register_frame lab st) as (_ & _ & Hsk & _ & _ & _ & Hout').
    apply resolve_size_lines in Hs as (Hlines & _).
    unfold printed. cbn. rewrite Hsk, Hout', Hlines. lia.
  - destruct (register_frame lab st) as (_ & _ & Hsk & _ & _ & _ & Hout').
    apply resolve_size_lines in Hs as (Hlines & _).
    unfold printed. cbn. rewrite Hsk, Hout', Hlines, length_app. cbn. lia.
Qed.

Lemma instance_loop_accounts a fs src insts st lc st' lc' :
  for_each (process_instance a fs src) insts (st, lc) = Ok (st', lc') ->
  st_skipped_instances st' + length (lines lc') + printed st'
  = st_skipped_instances st + length (lines lc) + printed st + length insts.
Proof.
  intros Hrun.
  apply (for_each_count
           (fun s : state * locals =>
              st_skipped_instances (fst s) + length (lines (snd s))
              + printed (fst s))
           (fun _ => 1)) in Hrun.
  - cbn [fst snd] in Hrun. rewrite Hrun. f_equal.
    clear. induction insts; cbn; auto.
  - intros inst [s l] [s' l'] H. cbn [fst snd].
    pose proof (process_instance_accounts a fs src inst s l s' l' H). lia.
Qed.

Lemma instance_loop_monotone a fs src insts st lc st' lc' :
  for_each (process_instance a fs src) insts (st, lc) = Ok (st', lc') ->
  printed st <= printed st' /\
  st_skipped_instances st <= st_skipped_instances st' /\
  length (lines lc) <= length (lines lc').
Proof.
  intros Hrun.
  apply (for_each_preserves
           (fun s s' : state * locals =>
              printed (fst s) <= printed (fst s') /\
              st_skipped_instances (fst s) <= st_skipped_instances (fst s') /\
              length (lines (snd s)) <= length (lines (snd s')))
           (process_instance a fs src) insts) in Hrun; [exact Hrun|..].
  - intros s. lia.
  - intros s1 s2 s3. lia.
  - intros inst [s l] [s' l'] _ H. cbn [fst snd].
    pose proof (process_instance_outcome a fs src inst s l) as Hout.
    rewrite H in Hout.
    inversion Hout as
      [Hl
      |lab Hl Hb
      |lab x0 y0 x1 y1 Hl Hb Hs Hres
      |lab x0 y0 x1 y1 w h lc1 e Hl Hb Hs Hy
      |lab x0 y0 x1 y1 w h lc1 x y bw bh Hl Hb Hs Hy Hd
      |lab cid x0 y0 x1 y1 w h lc1 x y bw bh Hl Hc Hb Hs Hy Hd]; subst;
      try (destruct (register_frame lab s) as (_ & _ & Hsk & _ & _ & _ & Hout'));
      try (apply resolve_size_lines in Hs as (Hlines & _)).
    + unfold printed. cbn. lia.
    + unfold printed. cbn. rewrite Hsk, Hout'. lia.
    + destruct (strict a); [discriminate|]. injection Hres as <- <-.
      unfold printed. cbn. rewrite Hsk, Hout', length_app. lia.
    + unfold printed. cbn. rewrite Hsk, Hout', Hlines. lia.
    + unfold printed. cbn. rewrite Hsk, Hout', Hlines, length_app. lia.
Qed.

(** One pass of the image loop: with [n] attached instances, the counters
    and the printed warnings together grow by [n] when the image resolves,
    and by the one missing-image warning when it does not. *)
Lemma process_image_accounts a fs dir per_image iid m st st' insts :
  dict_get iid per_image = Some insts ->
  process_image a fs dir per_image (iid, m) st = Ok st' ->
  printed st <= printed st' /\
  accounted st <= accounted st' /\
  accounted st' <= accounted st + length insts /\
  (printed st' <= printed st -> accounted st' = accounted st + length insts).
Proof.
  intros Hget H.
  apply process_image_effect in H
    as [[_ ->]|(src & insts' & st1 & lc1 & _ & _ & Hget' & Hloop & ->)].
  - unfold printed, accounted. cbn. rewrite length_app. cbn.
    repeat split; lia.
  - rewrite Hget in Hget'. injection Hget' as <-.
    pose proof (instance_loop_accounts _ _ _ _ _ _ _ _ Hloop) as Hacc.
    pose proof (instance_loop_monotone _ _ _ _ _ _ _ _ Hloop)
      as (Hmp & Hms & _).
    apply instance_loop_frame in Hloop as (Hi & Hn & _ & _ & _).
    pose proof (copy_image_printed src
                  (path_name dir +:+ "_" +:+ path_name src) st) as Hp.
    assert (Hc : st_skipped_instances
                   (copy_image src (path_name dir +:+ "_" +:+ path_name src) st)
                 = st_skipped_instances st /\
                 st_instances
                   (copy_image src (path_name dir +:+ "_" +:+ path_name src) st)
                 = st_instances st)
      by (unfold copy_image; now destruct (_ !! _)).
    destruct Hc as [Hcs Hcn].
    cbn [lines length] in Hacc. rewrite Hcs, Hp in Hacc. rewrite Hcn in Hn.
    rewrite Hp in Hmp. rewrite Hcs in Hms.
    unfold accounted, printed in *. cbn. rewrite Hn.
    repeat split; lia.
Qed.

Lemma count_by_key (ks : list (option Z)) (insts : list instance) :
  NoDup ks ->
  sum_list
    (map (fun k =>
            length (List.filter (fun inst => bool_decide (image_id inst = k))
                                insts)) ks)
  = length (List.filter (fun inst => bool_decide (image_id inst ∈ ks)) insts).
Proof.
  intros Hnd. induction insts as [|inst insts IH]; cbn [List.filter].
  - cbn. clear. induction ks; cbn; auto.
  - assert (Hone :
      sum_list
        (map (fun k =>
                length (if bool_decide (image_id inst = k)
                        then inst :: List.filter
                               (fun i => bool_decide (image_id i = k)) insts
                        else List.filter
                               (fun i => bool_decide (image_id i = k)) insts))
             ks)
      = (if bool_decide (image_id inst ∈ ks) then 1 else 0)
        + sum_list
            (map (fun k =>
                    length (List.filter
                              (fun i => bool_decide (image_id i = k)) insts))
                 ks)).
    { clear IH. induction Hnd as [|k ks Hk Hnd IHks]; cbn [map sum_list].
      - rewrite bool_decide_false by apply not_elem_of_nil. reflexivity.
      - rewrite IHks. destruct (decide (image_id inst = k)) as [Heq|Hne].
        + rewrite (bool_decide_true (image_id inst = k)) by assumption.
          rewrite (bool_decide_true (image_id inst ∈ k :: ks))
            by (apply elem_of_cons; now left).
          rewrite (bool_decide_false (image_id inst ∈ ks))
            by (rewrite Heq; exact Hk).
          cbn. lia.
        + rewrite (bool_decide_false (image_id inst = k)) by assumption.
          assert (Hiff : bool_decide (image_id inst ∈ k :: ks)
                         = bool_decide (image_id inst ∈ ks)).
          { apply bool_decide_ext. rewrite elem_of_cons. tauto. }
          rewrite Hiff. destruct (bool_decide (image_id inst ∈ ks)); cbn; lia. }
    rewrite Hone, IH.
    destruct (bool_decide (image_id inst ∈ ks)); cbn; lia.
Qed.

Lemma filter_split_length {A} (f : A -> bool) (l : list A) :
  length (List.filter f l) + length (List.filter (fun x => negb (f x)) l)
  = length l.
Proof.
  induction l as [|x l IH]; cbn; [reflexivity|].
  destruct (f x); cbn; lia.
Qed.

Lemma process_image_accounts_any a fs dir per_image item st st' :
  process_image a fs dir per_image item st = Ok st' ->
  let n := from_option length 0 (dict_get (fst item) per_image) in
  printed st <= printed st' /\
  accounted st' <= accounted st + n /\
  (printed st' <= printed st -> accounted st' = accounted st + n).
Proof.
  destruct item as [iid m]. cbn [fst]. intros H.
  destruct (dict_get iid per_image) as [insts|] eqn:Hget; cbn.
  - destruct (process_image_accounts a fs dir per_image iid m st st' insts
                Hget H) as (H1 & _ & H3 & H4). auto.
  - apply process_image_effect in H
      as [[_ ->]|(src & insts' & st1 & lc1 & _ & _ & Hget' & _)];
      [|congruence].
    unfold printed, accounted. cbn. rewrite length_app. cbn.
    repeat split; lia.
Qed.

Lemma attached_total (ims : list image_entry) (insts : list instance)
    (st : state) :
  sum_list
    (map (fun item : option Z * meta =>
            from_option length 0
              (dict_get (fst item)
                 (fst (build_per_image (build_img_map ims) insts st))))
         (build_img_map ims))
  + length (List.filter (is_orphan ims) insts)
  = length insts.
Proof.
  set (m := build_img_map ims).
  assert (Hsum :
    sum_list
      (map (fun item : option Z * meta =>
              from_option length 0
                (dict_get (fst item) (fst (build_per_image m insts st)))) m)
    = sum_list
        (map (fun k =>
                length (List.filter
                          (fun inst => bool_decide (image_id inst = k)) insts))
             (map fst m))).
  { rewrite map_map. f_equal. apply map_ext_in. intros [k v] Hin. cbn [fst].
    rewrite build_per_image_get. rewrite bool_decide_true; [reflexivity|].
    apply list_elem_of_fmap. exists (k, v). split; [reflexivity|].
    now apply list_elem_of_In. }
  rewrite Hsum, (count_by_key _ _ (build_img_map_nodup ims)).
  rewrite <- (filter_split_length
                (fun inst => bool_decide (image_id inst ∈ map fst m)) insts).
  f_equal. f_equal. apply filter_ext. intros inst. unfold is_orphan. f_equal.
  apply bool_decide_ext. symmetry. apply build_img_map_keys.
Qed.

(** Over one scene the counters [instances] and [skipped_instances]
    together never grow by more than the number of instances in the
    document, and they grow by exactly that number when the scene is
    processed without printing a warning: no instance is then lost. *)
Theorem scene_accounts_for_every_instance (a : args) (fs : filesystem)
    (sc : scene) (data : document) (st st' : state) :
  scene_doc sc = Some data ->
  process_scene a fs sc st = Ok st' ->
  accounted st' <= accounted st + length (instances data) /\
  (stdout st' = stdout st ->
   accounted st' = accounted st + length (instances data)).
Proof.
  intros Hdoc. unfold process_scene. rewrite Hdoc.
  pose proof (attached_total (images data) (instances data) (count_scene st))
    as Htotal.
  pose proof (build_per_image_skipped (images data) (instances data)
                (count_scene st)) as Hs.
  destruct (build_per_image _ _ _) as [pi st0]. cbn [fst snd] in Htotal, Hs.
  assert (Hacc0 : accounted st0
                  = accounted st
                    + length (List.filter (is_orphan (images data))
                                          (instances data)))
    by (rewrite Hs; unfold accounted; cbn; lia).
  assert (Hp0 : printed st0 = printed st) by (rewrite Hs; reflexivity).
  set (c := fun item : option Z * meta =>
              from_option length 0 (dict_get (fst item) pi)) in *.
  intros Hrun. split.
  - apply (for_each_count_le accounted c) in Hrun; [lia|].
    intros item s s' Hi.
    now apply process_image_accounts_any in Hi as (_ & Hle & _).
  - intros Hquiet.
    apply (for_each_quiet_count printed accounted c) in Hrun; [lia| | |].
    + intros item s s' Hi.
      now apply process_image_accounts_any in Hi as (Hm & _ & _).
    + intros item s s' Hi Hq.
      apply process_image_accounts_any in Hi as (_ & _ & Heq). now apply Heq.
    + unfold printed in *. rewrite Hquiet. lia.
Qed.

Lemma scene_accounts_for_every_instance_witness :
  exists st',
    process_scene default_args scene_a_fs scene_a_with_orphan
      (initial_state ∅ ∅) = Ok st' /\
    accounted st' = accounted (initial_state ∅ ∅) + 2.
Proof.
  eexists. split; [vm_compute; reflexivity|].
  apply (scene_accounts_for_every_instance default_args scene_a_fs
           scene_a_with_orphan doc_a_with_orphan (initial_state ∅ ∅));
    vm_compute; reflexivity.
Defined.

(** ** Label lines name classes of the manifest *)

Lemma for_each_invariant {A S} (I : S -> Prop) (body : A -> S -> result S)
    (xs : list A) :
  (forall x s s', I s -> body x s = Ok s' -> I s') ->
  forall s s', I s -> for_each body xs s = Ok s' -> I s'.
Proof.
  intros Hbody s s' Hs Hrun. revert Hs.
  apply (for_each_preserves (fun t t' => I t -> I t') body xs); auto.
  intros x t t' _ Ht Hi. eauto.
Qed.

Lemma register_next_cid lab st : next_cid st <= next_cid (register lab st).
Proof. unfold register. destruct dict_mem; cbn; lia. Qed.

Lemma labels_valid_weaken st st' :
  out_labels st' = out_labels st -> next_cid st <= next_cid st' ->
  labels_valid st -> labels_valid st'.
Proof.
  intros Hl Hn Hv f ls Hf. rewrite Hl in Hf.
  eapply Forall_impl; [exact (Hv f ls Hf)|]. cbn. intros l Hlt. lia.
Qed.

Lemma process_instance_valid a fs src inst st lc st' lc' :
  registry_ok st /\ labels_valid st /\
  Forall (fun l => line_class l < next_cid st) (lines lc) ->
  process_instance a fs src inst (st, lc) = Ok (st', lc') ->
  registry_ok st' /\ labels_valid st' /\
  Forall (fun l => line_class l < next_cid st') (lines lc').
Proof.
  intros (Hok & Hv & Hlines) Hrun.
  pose proof (process_instance_outcome a fs src inst st lc) as Hout.
  rewrite Hrun in Hout.
  assert (Hreg : forall lab,
    registry_ok (register lab st) /\ labels_valid (register lab st) /\
    Forall (fun l => line_class l < next_cid (register lab st)) (lines lc)).
  { intros lab. pose proof (register_next_cid lab st) as Hn.
    destruct (register_frame lab st) as (_ & _ & _ & _ & _ & Hol & _).
    split; [now apply register_ok|]. split.
    - now apply (labels_valid_weaken st).
    - eapply Forall_impl; [exact Hlines|]. cbn. intros l Hlt. lia. }
  inversion Hout as
    [Hl
    |lab Hl Hb
    |lab x0 y0 x1 y1 Hl Hb Hs Hres
    |lab x0 y0 x1 y1 w h lc1 e Hl Hb Hs Hy
    |lab x0 y0 x1 y1 w h lc1 x y bw bh Hl Hb Hs Hy Hd
    |lab cid x0 y0 x1 y1 w h lc1 x y bw bh Hl Hc Hb Hs Hy Hd]; subst.
  - auto.
  - exact (Hreg lab).
  - destruct (strict a); [discriminate|]. injection Hres as <- <-.
    exact (Hreg lab).
  - destruct (Hreg lab) as (H1 & H2 & H3).
    apply resolve_size_lines in Hs as (Hlc & _). rewrite Hlc. auto.
  - destruct (Hreg lab) as (H1 & H2 & H3).
    apply resolve_size_lines in Hs as (Hlc & _).
    split; [exact H1|]. split; [exact H2|]. cbn. rewrite Hlc.
    apply Forall_app. split; [exact H3|].
    constructor; [|constructor]. cbn.
    now apply (registry_id_bound (register lab st) lab cid).
Qed.

Lemma process_image_valid a fs dir per_image item st st' :
  registry_ok st /\ labels_valid st ->
  process_image a fs dir per_image item st = Ok st' ->
  registry_ok st' /\ labels_valid st'.
Proof.
  destruct item as [iid m]. intros [Hok Hv] H.
  apply process_image_effect in H
    as [[_ ->]|(src & insts & st1 & lc1 & _ & _ & _ & Hloop & ->)].
  - split; [exact Hok|exact Hv].
  - set (st0 := copy_image src (path_name dir +:+ "_" +:+ path_name src) st) in *.
    assert (H0 : registry_ok st0 /\ labels_valid st0 /\
                 Forall (fun l => line_class l < next_cid st0) []).
    { unfold st0, copy_image. destruct (_ !! _); auto. }
    assert (Hbody : forall inst (s s' : state * locals),
      registry_ok (fst s) /\ labels_valid (fst s) /\
      Forall (fun l => line_class l < next_cid (fst s)) (lines (snd s)) ->
      process_instance a fs src inst s = Ok s' ->
      registry_ok (fst s') /\ labels_valid (fst s') /\
      Forall (fun l => line_class l < next_cid (fst s')) (lines (snd s'))).
    { intros inst [s l] [s' l'] Hi Hrun. cbn [fst snd] in *.
      now apply (process_instance_valid a fs src inst s l). }
    pose proof (for_each_invariant
                  (fun s : state * locals =>
                     registry_ok (fst s) /\ labels_valid (fst s) /\
                     Forall (fun l => line_class l < next_cid (fst s))
                            (lines (snd s)))
                  (process_instance a fs src) insts Hbody
                  (st0, {| lines := []; cur_w := width m; cur_h := height m |})
                  (st1, lc1) H0 Hloop) as Hend.
    cbn [fst snd] in Hend. destruct Hend as (Hok1 & Hv1 & Hl1).
    split; [exact Hok1|].
    intros f ls Hf. cbn in Hf.
    destruct (decide (path_stem (path_name dir +:+ "_" +:+ path_name src)
                      +:+ ".txt" = f)) as [<-|Hne].
    + rewrite lookup_insert_eq in Hf. injection Hf as <-. exact Hl1.
    + rewrite lookup_insert_ne in Hf by assumption. exact (Hv1 f ls Hf).
Qed.

Lemma process_scene_valid a fs sc st st' :
  registry_ok st /\ labels_valid st ->
  process_scene a fs sc st = Ok st' ->
  registry_ok st' /\ labels_valid st'.
Proof.
  intros [Hok Hv]. unfold process_scene. destruct (scene_doc sc) as [data|].
  - pose proof (build_per_image_frame (build_img_map (images data))
                  (instances data) (count_scene st)) as Hf.
    destruct (build_per_image_registry (build_img_map (images data))
                (instances data) (count_scene st)) as [Hc Hn].
    destruct (build_per_image _ _ _) as [pi st0]. cbn in Hf, Hc, Hn.
    destruct Hf as (_ & _ & _ & _ & Hl & _).
    apply (for_each_invariant (fun s => registry_ok s /\ labels_valid s)).
    + intros item s s'. apply process_image_valid.
    + split; [now apply (registry_ok_same st)|].
      apply (labels_valid_weaken st); [exact Hl|lia|exact Hv].
  - destruct (strict a); [discriminate|]. intros [= <-]. split; assumption.
Qed.

(** When the label directory holds no line on entry, every line of every
    label file after [main] carries a class id that is an entry of the
    manifest. *)
Theorem label_lines_index_manifest (a : args) (fs : filesystem)
    (scenes : list scene) (imgs : gmap string string)
    (lbls : gmap string (list label_line)) (st : state)
    (yaml : list (nat * option string)) :
  (forall f ls, lbls !! f = Some ls -> ls = []) ->
  main a fs scenes imgs lbls = Ok (st, yaml) ->
  forall f ls l,
    out_labels st !! f = Some ls -> l ∈ ls ->
    exists name, yaml !! line_class l = Some (line_class l, Some name).
Proof.
  intros Hempty Hmain f ls l Hf Hl. unfold main in Hmain.
  destruct (run a fs scenes (initial_state imgs lbls)) as [st1|] eqn:Hrun;
    [|discriminate].
  cbn [bind] in Hmain.
  assert (Hinit : registry_ok (initial_state imgs lbls) /\
                  labels_valid (initial_state imgs lbls)).
  { split; [apply initial_state_ok|]. intros g gs Hg. cbn in Hg.
    rewrite (Hempty g gs Hg). constructor. }
  pose proof (for_each_invariant (fun s => registry_ok s /\ labels_valid s)
                (process_scene a fs) scenes
                (fun sc s s' => process_scene_valid a fs sc s s')
                _ _ Hinit Hrun) as [Hok Hv].
  rewrite (invert_classes_ok st1 Hok) in Hmain. cbn [bind] in Hmain.
  injection Hmain as <- <-.
  pose proof (Hv f ls Hf) as Hall. rewrite Forall_forall in Hall.
  specialize (Hall l Hl). destruct Hok as (_ & _ & Hn). rewrite Hn in Hall.
  apply lookup_lt_is_Some_2 in Hall as [[name cid] Hkv].
  exists name. unfold write_data_yaml.
  rewrite list_lookup_imap, list_lookup_fmap, Hkv. reflexivity.
Qed.

Lemma label_lines_index_manifest_witness :
  exists st yaml,
    main default_args scene_a_fs [scene_a_with_orphan] ∅ ∅ = Ok (st, yaml) /\
    forall f ls l,
      out_labels st !! f = Some ls -> l ∈ ls ->
      exists name, yaml !! line_class l = Some (line_class l, Some name).
Proof.
  eexists _, _. split; [vm_compute; reflexivity|].
  apply (label_lines_index_manifest default_args scene_a_fs
           [scene_a_with_orphan] ∅ ∅).
  - intros f ls Hf. rewrite lookup_empty in Hf. discriminate.
  - vm_compute. reflexivity.
Defined.

(** ** Strict mode prints nothing *)

Lemma process_instance_strict_silent a fs src inst st lc st' lc' :
  strict a = true ->
  process_instance a fs src inst (st, lc) = Ok (st', lc') ->
  stdout st' = stdout st.
Proof.
  intros Hstrict Hrun.
  pose proof (process_instance_outcome a fs src inst st lc) as Hout.
  rewrite Hrun in Hout.
  inversion Hout as
    [Hl
    |lab Hl Hb
    |lab x0 y0 x1 y1 Hl Hb Hs Hres
    |lab x0 y0 x1 y1 w h lc1 e Hl Hb Hs Hy
    |lab x0 y0 x1 y1 w h lc1 x y bw bh Hl Hb Hs Hy Hd
    |lab cid x0 y0 x1 y1 w h lc1 x y bw bh Hl Hc Hb Hs Hy Hd]; subst;
    try (destruct (register_frame lab st) as (_ & _ & _ & _ & _ & _ & Hout'));
    try (cbn; congruence).
  rewrite Hstrict in Hres. discriminate.
Qed.

Lemma process_image_strict_silent a fs dir per_image item st st' :
  strict a = true ->
  process_image a fs dir per_image item st = Ok st' ->
  stdout st' = stdout st.
Proof.
  destruct item as [iid m]. intros Hstrict H.
  apply process_image_effect in H
    as [[Htol _]|(src & insts & st1 & lc1 & _ & _ & _ & Hloop & ->)];
    [congruence|].
  apply (for_each_preserves
           (fun s s' : state * locals => stdout (fst s') = stdout (fst s))
           (process_instance a fs src) insts) in Hloop.
  - cbn [fst] in Hloop. cbn. rewrite Hloop.
    unfold copy_image. now destruct (_ !! _).
  - reflexivity.
  - intros s1 s2 s3 H1 H2. congruence.
  - intros inst [s l] [s' l'] _ Hi. cbn [fst].
    now apply (process_instance_strict_silent a fs src inst s l s' l').
Qed.

Lemma build_per_image_stdout img_map insts st :
  stdout (snd (build_per_image img_map insts st)) = stdout st.
Proof.
  unfold build_per_image. generalize (empty_per_image img_map).
  revert st. induction insts as [|inst insts IH]; intros st pi; cbn;
    [reflexivity|].
  destruct (dict_get (image_id inst) pi); [apply IH|].
  now rewrite IH.
Qed.

(** A run in strict mode that ends has printed no warning. *)
Theorem strict_run_prints_nothing (a : args) (fs : filesystem)
    (scenes : list scene) (st st' : state) :
  strict a = true ->
  run a fs scenes st = Ok st' ->
  stdout st' = stdout st.
Proof.
  intros Hstrict. unfold run.
  apply (for_each_preserves (fun s s' => stdout s' = stdout s)).
  - reflexivity.
  - intros s1 s2 s3 H1 H2. congruence.
  - intros sc s s' _. unfold process_scene. rewrite Hstrict.
    destruct (scene_doc sc) as [data|]; [|discriminate].
    pose proof (build_per_image_stdout (build_img_map (images data))
                  (instances data) (count_scene s)) as Hs.
    destruct (build_per_image _ _ _) as [pi st0]. cbn [snd] in Hs.
    change (stdout (count_scene s)) with (stdout s) in Hs.
    intros Hrun. rewrite <- Hs. revert Hrun.
    apply (for_each_preserves (fun t t' => stdout t' = stdout t)).
    + reflexivity.
    + intros s1 s2 s3 H1 H2. congruence.
    + intros item t t' _. now apply process_image_strict_silent.
Qed.

Lemma strict_run_prints_nothing_witness :
  exists st',
    run strict_args scene_a_fs [scene_a_with_orphan] (initial_state ∅ ∅)
    = Ok st' /\
    stdout st' = [].
Proof.
  eexists. split; [vm_compute; reflexivity|].
  apply (strict_run_prints_nothing strict_args scene_a_fs
           [scene_a_with_orphan] (initial_state ∅ ∅));
    [reflexivity|vm_compute; reflexivity].
Defined.

(** ** Running twice into the same output directory *)

Lemma with_out_own (st : state) : with_out (out_images st) (out_labels st) st = st.
Proof. now destruct st. Qed.

Lemma apply_copies_app cs1 cs2 imgs :
  apply_copies (cs1 ++ cs2) imgs = apply_copies cs2 (apply_copies cs1 imgs).
Proof. unfold apply_copies. apply fold_left_app. Qed.

Lemma apply_writes_app ws1 ws2 lbls :
  apply_writes (ws1 ++ ws2) lbls = apply_writes ws2 (apply_writes ws1 lbls).
Proof. unfold apply_writes. apply fold_left_app. Qed.

(** After a sequence of writes a file holds its last write, else what it
    held before. *)
Lemma apply_writes_lookup ws lbls k :
  apply_writes ws lbls !! k
  = match find (fun w => bool_decide (fst w = k)) (rev ws) with
    | Some w => Some (snd w)
    | None => lbls !! k
    end.
Proof.
  unfold apply_writes. revert lbls.
  induction ws as [|[k0 v0] ws IH]; intros lbls; cbn [fold_left rev];
    [reflexivity|].
  rewrite IH, find_over_app.
  destruct (find _ (rev ws)) as [w|]; [reflexivity|].
  cbn [find fst snd]. destruct (decide (k0 = k)) as [->|Hne].
  - rewrite bool_decide_true by reflexivity. apply lookup_insert_eq.
  - rewrite bool_decide_false by assumption. now apply lookup_insert_ne.
Qed.

(** After a sequence of guarded copies a file holds what it held before,
    else its first copy. *)
Lemma apply_copies_lookup cs imgs k :
  apply_copies cs imgs !! k
  = match imgs !! k with
    | Some v => Some v
    | None => snd <$> find (fun c => bool_decide (fst c = k)) cs
    end.
Proof.
  unfold apply_copies. revert imgs.
  induction cs as [|[k0 v0] cs IH]; intros imgs; cbn [fold_left find fst snd].
  - now destruct (imgs !! k).
  - rewrite IH. destruct (decide (k0 = k)) as [->|Hne].
    + rewrite bool_decide_true by reflexivity.
      destruct (imgs !! k) as [v|] eqn:E; [now rewrite E|].
      now rewrite lookup_insert_eq.
    + rewrite bool_decide_false by assumption.
      destruct (imgs !! k0) as [v|] eqn:E; [reflexivity|].
      now rewrite lookup_insert_ne.
Qed.

Lemma apply_writes_twice ws lbls :
  apply_writes ws (apply_writes ws lbls) = apply_writes ws lbls.
Proof.
  apply map_eq. intros k. rewrite !apply_writes_lookup.
  now destruct (find _ (rev ws)).
Qed.

Lemma apply_copies_twice cs imgs :
  apply_copies cs (apply_copies cs imgs) = apply_copies cs imgs.
Proof.
  apply map_eq. intros k. rewrite !apply_copies_lookup.
  destruct (imgs !! k); [reflexivity|].
  now destruct (find _ cs).
Qed.

Lemma register_with_out imgs lbls lab st :
  register lab (with_out imgs lbls st) = with_out imgs lbls (register lab st).
Proof. unfold register. cbn. now destruct (dict_mem lab (classes st)). Qed.

Lemma process_instance_with_out a fs src inst imgs lbls st lc :
  process_instance a fs src inst (with_out imgs lbls st, lc)
  = result_map (fun sl => (with_out imgs lbls (fst sl), snd sl))
               (process_instance a fs src inst (st, lc)).
Proof.
  unfold process_instance.
  destruct (label_from_instance inst (label_field a)) as [lab|]; [|reflexivity].
  rewrite register_with_out. cbn [classes with_out].
  destruct (dict_get lab (classes (register lab st))) as [cid|]; [|reflexivity].
  destruct (bbox inst) as [[|x0 [|x1 [|x2 [|x3 [|x4 l]]]]]|]; try reflexivity.
  destruct (resolve_size fs src lc) as [[[w h] lc']|].
  - unfold normalize_and_emit.
    destruct (yolo_bbox x0 x1 x2 x3 w h) as [[[[x y] bw] bh]|e]; [|reflexivity].
    cbn. now destruct (degenerate bw bh).
  - now destruct (strict a).
Qed.

Lemma for_each_oblivious {A} (body : A -> state -> result state) (xs : list A) :
  (forall x, tree_oblivious (body x)) ->
  tree_oblivious (for_each body xs).
Proof.
  intros Hbody. induction xs as [|x xs IH]; intros st; cbn [for_each].
  - exists [], []. intros imgs lbls. reflexivity.
  - pose proof (Hbody x st) as Hx.
    destruct (body x st) as [s1|e]; cbn [bind].
    + destruct Hx as (cs1 & ws1 & Hx). pose proof (IH s1) as Hrest.
      destruct (for_each body xs s1) as [s2|e].
      * destruct Hrest as (cs2 & ws2 & Hrest).
        exists (cs1 ++ cs2), (ws1 ++ ws2). intros imgs lbls.
        rewrite Hx. cbn [bind].
        now rewrite Hrest, apply_copies_app, apply_writes_app.
      * intros imgs lbls. rewrite Hx. cbn [bind]. apply Hrest.
    + intros imgs lbls. now rewrite Hx.
Qed.

Lemma process_image_oblivious a fs dir per_image item :
  tree_oblivious (process_image a fs dir per_image item).
Proof.
  destruct item as [iid m]. intros st. unfold process_image.
  assert (Hmiss : forall w,
    match (if strict a then Raise FileNotFoundError else Ok (warn w st)) with
    | Ok st' =>
        exists cs ws, forall imgs lbls,
          (if strict a then Raise FileNotFoundError
           else Ok (warn w (with_out imgs lbls st)))
          = Ok (with_out (apply_copies cs imgs) (apply_writes ws lbls) st')
    | Raise e =>
        forall imgs lbls,
          (if strict a then Raise FileNotFoundError
           else Ok (warn w (with_out imgs lbls st))) = Raise e
    end).
  { intros w. destruct (strict a); [reflexivity|]. now exists [], []. }
  destruct (resolve_image_path fs dir (file_name m) (image_extensions a))
    as [src|]; [|apply Hmiss].
  destruct (fs_exists fs src); cbn [negb]; [|apply Hmiss].
  destruct (dict_get iid per_image) as [insts|]; [|reflexivity].
  set (out_img := path_name dir +:+ "_" +:+ path_name src).
  set (lc0 := {| lines := []; cur_w := width m; cur_h := height m |}).
  assert (Hcopy : forall imgs lbls,
    copy_image src out_img (with_out imgs lbls st)
    = with_out (apply_copies [(out_img, src)] imgs) lbls
               (copy_image src out_img st)).
  { intros imgs lbls. unfold copy_image, apply_copies. cbn.
    destruct (imgs !! out_img); now destruct (out_images st !! out_img). }
  assert (Hloop : forall imgs lbls,
    for_each (process_instance a fs src) insts
      (with_out imgs lbls (copy_image src out_img st), lc0)
    = result_map (fun sl => (with_out imgs lbls (fst sl), snd sl))
        (for_each (process_instance a fs src) insts
           (copy_image src out_img st, lc0))).
  { intros imgs lbls.
    apply (for_each_commute
             (fun sl : state * locals => (with_out imgs lbls (fst sl), snd sl))
             (process_instance a fs src) insts
             (fun inst sl =>
                match sl with
                | (s, l) => process_instance_with_out a fs src inst imgs lbls s l
                end)
             (copy_image src out_img st, lc0)). }
  destruct (for_each (process_instance a fs src) insts
              (copy_image src out_img st, lc0)) as [[st1 lc1]|e] eqn:E;
    cbn [bind].
  - exists [(out_img, src)], [(path_stem out_img +:+ ".txt", lines lc1)].
    intros imgs lbls. rewrite Hcopy, Hloop. reflexivity.
  - intros imgs lbls. rewrite Hcopy, Hloop. reflexivity.
Qed.

Lemma build_per_image_with_out img_map insts imgs lbls st :
  snd (build_per_image img_map insts (with_out imgs lbls st))
  = with_out imgs lbls (snd (build_per_image img_map insts st)).
Proof.
  unfold build_per_image. generalize (empty_per_image img_map).
  revert st. induction insts as [|inst insts IH]; intros st pi; cbn;
    [reflexivity|].
  destruct (dict_get (image_id inst) pi); [apply IH|].
  apply (IH (count_skipped st)).
Qed.

Lemma process_scene_oblivious a fs sc : tree_oblivious (process_scene a fs sc).
Proof.
  intros st. unfold process_scene.
  destruct (scene_doc sc) as [data|].
  - set (m := build_img_map (images data)).
    pose proof (fun imgs lbls =>
                  build_per_image_with_out m (instances data) imgs lbls
                    (count_scene st)) as Hsnd.
    pose proof (fun imgs lbls =>
                  build_per_image_state_free m (instances data)
                    (count_scene (with_out imgs lbls st)) (count_scene st))
      as Hfst.
    destruct (build_per_image m (instances data) (count_scene st))
      as [pi st0] eqn:E0. cbn [fst snd] in Hsnd, Hfst.
    pose proof (for_each_oblivious (process_image a fs (scene_dir sc) pi) m
                  (process_image_oblivious a fs (scene_dir sc) pi) st0) as Hloop.
    assert (Hstep : forall imgs lbls,
      build_per_image m (instances data) (count_scene (with_out imgs lbls st))
      = (pi, with_out imgs lbls st0)).
    { intros imgs lbls.
      specialize (Hsnd imgs lbls). specialize (Hfst imgs lbls).
      change (count_scene (with_out imgs lbls st))
        with (with_out imgs lbls (count_scene st)) in *.
      destruct (build_per_image m (instances data)
                  (with_out imgs lbls (count_scene st))) as [pi' st0'].
      cbn [fst snd] in Hsnd, Hfst. now subst. }
    destruct (for_each (process_image a fs (scene_dir sc) pi) m st0) as [s1|e].
    + destruct Hloop as (cs & ws & Hloop). exists cs, ws.
      intros imgs lbls. now rewrite Hstep.
    + intros imgs lbls. now rewrite Hstep.
  - destruct (strict a); [reflexivity|]. now exists [], [].
Qed.

Lemma run_oblivious a fs scenes : tree_oblivious (run a fs scenes).
Proof. apply for_each_oblivious. apply process_scene_oblivious. Qed.

(** Running [main] again on the same input, into the output directory the
    first run left, gives the same images, the same label files, the same
    statistics and the same manifest. *)
Theorem second_run_changes_nothing (a : args) (fs : filesystem)
    (scenes : list scene) (imgs : gmap string string)
    (lbls : gmap string (list label_line)) (st : state)
    (yaml : list (nat * option string)) :
  main a fs scenes imgs lbls = Ok (st, yaml) ->
  main a fs scenes (out_images st) (out_labels st) = Ok (st, yaml).
Proof.
  unfold main. intros Hmain.
  pose proof (run_oblivious a fs scenes (initial_state ∅ ∅)) as Hobl.
  change (initial_state imgs lbls)
    with (with_out imgs lbls (initial_state ∅ ∅)) in Hmain.
  change (initial_state (out_images st) (out_labels st))
    with (with_out (out_images st) (out_labels st) (initial_state ∅ ∅)).
  destruct (run a fs scenes (initial_state ∅ ∅)) as [s0|e].
  - destruct Hobl as (cs & ws & Hobl).
    rewrite Hobl in Hmain. cbn [bind] in Hmain.
    destruct (invert_classes _) as [inv|] eqn:Einv; [|discriminate].
    cbn [bind] in Hmain. injection Hmain as <- <-.
    rewrite Hobl. cbn [bind out_images out_labels with_out classes].
    rewrite apply_copies_twice, apply_writes_twice.
    cbn [classes with_out] in Einv. now rewrite Einv.
  - rewrite Hobl in Hmain. discriminate.
Qed.

Lemma second_run_changes_nothing_witness :
  exists st yaml,
    main default_args twin_fs [twin_first; twin_second] ∅ ∅ = Ok (st, yaml) /\
    main default_args twin_fs [twin_first; twin_second]
      (out_images st) (out_labels st) = Ok (st, yaml).
Proof.
  eexists _, _. split; [vm_compute; reflexivity|].
  apply (second_run_changes_nothing default_args twin_fs
           [twin_first; twin_second] ∅ ∅).
  vm_compute. reflexivity.
Defined.

(** ** A zero width or height *)

(** An instance that reaches normalization on an image whose width or
    height is zero ends the run with [ZeroDivisionError], in tolerant mode
    as in strict mode; its label has been registered by then. *)
Theorem zero_dimension_aborts (a : args) (fs : filesystem) (src : string)
    (inst : instance) (st : state) (lc lc' : locals) (lab : string)
    (xmin ymin xmax ymax w h : Q) :
  label_from_instance inst (label_field a) = Some lab ->
  bbox inst = Some [xmin; ymin; xmax; ymax] ->
  resolve_size fs src lc = Some (w, h, lc') ->
  (w == 0 \/ h == 0)%Q ->
  process_instance a fs src inst (st, lc) = Raise ZeroDivisionError.
Proof.
  intros Hl Hb Hs Hz.
  destruct (process_instance_normalize a fs src inst st lc lab _ _ _ _ _ _ _
              Hl Hb Hs) as (cid & _ & ->).
  unfold normalize_and_emit. now rewrite yolo_bbox_zero_dim.
Qed.

Lemma zero_dimension_aborts_witness :
  process_instance default_args scene_a_fs "in/sceneA/beauty.0001.png"
    car_with_box (initial_state ∅ ∅, no_locals (Some 0%Q) (Some 50%Q))
  = Raise ZeroDivisionError.
Proof.
  apply (zero_dimension_aborts default_args scene_a_fs
           "in/sceneA/beauty.0001.png" car_with_box (initial_state ∅ ∅)
           (no_locals (Some 0%Q) (Some 50%Q)) (no_locals (Some 0%Q) (Some 50%Q))
           "car" 10%Q 10%Q 60%Q 40%Q 0%Q 50%Q);
    [reflexivity..|left; reflexivity].
Defined.
